(** * RAGNestiorAssistant: the ingestion parsers

    A shallow embedding of [Libs/Parsers/DocumentsParser.py],
    [Libs/Parsers/TelegramParser.py] and [Libs/Parsers/VKParser.py], and the
    properties of the normalisation layer and of the VK fetch loop.

    Conventions of the embedding:
    - Python [int] is [Z]; [str] is [string], a sequence of UTF-8 bytes;
    - a [dict] with string keys is a [gmap string _];
    - a call that may raise returns a [Res]; code that talks to a remote
      service threads a state through a small state-and-exception monad;
    - [Document] objects live in a heap and are handed around by reference,
      because [parse_document] mutates them in place. *)

From Stdlib Require Import ZArith QArith_base Ascii String.
From stdpp Require Import gmap strings list.
From Equations Require Import Equations.

Local Open Scope string_scope.
Local Open Scope list_scope.
Local Open Scope Z_scope.

(** ** Python values, exceptions and results *)

Module Py.

(** The values stored in a [Document]'s metadata mapping. *)
#[warnings="-register-all"]
Inductive PyVal : Type :=
| VNone
| VBool (b : bool)
| VInt (n : Z)
| VStr (s : string)
| VList (l : list PyVal).

(** [bool(v)] *)
Definition truthy (v : PyVal) : bool :=
  match v with
  | VNone => false
  | VBool b => b
  | VInt n => negb (n =? 0)
  | VStr s => negb (String.eqb s "")
  | VList l => match l with [] => false | _ => true end
  end.

Definition of_opt_int (o : option Z) : PyVal :=
  match o with Some n => VInt n | None => VNone end.

(** An exception object: its class name and its message. *)
Record PyExc : Type := Exc { exc_class : string; exc_msg : string }.

(** The outcome of a call: a returned value or a raised exception. *)
Inductive Res (A : Type) : Type :=
| Ret (a : A)
| Raise (e : PyExc).
Arguments Ret {A} a.
Arguments Raise {A} e.

(** State-and-exception monad: the state survives a raise. *)
Definition M (S A : Type) : Type := S -> Res A * S.

Definition ret {S A} (a : A) : M S A := fun s => (Ret a, s).
Definition raise {S A} (e : PyExc) : M S A := fun s => (Raise e, s).
Definition bind {S A B} (m : M S A) (k : A -> M S B) : M S B :=
  fun s => match m s with
           | (Ret a, s') => k a s'
           | (Raise e, s') => (Raise e, s')
           end.
(** [try: m  except Exception as e: h e] *)
Definition try_except {S A} (m : M S A) (h : PyExc -> M S A) : M S A :=
  fun s => match m s with
           | (Ret a, s') => (Ret a, s')
           | (Raise e, s') => h e s'
           end.

End Py.
Import Py.

Declare Scope py_scope.
Delimit Scope py_scope with py.
Notation "x <- m ;; k" := (bind m (fun x => k))
  (at level 100, m at next level, right associativity) : py_scope.
Notation "m ;;; k" := (bind m (fun _ => k))
  (at level 100, right associativity) : py_scope.

(** ** Strings *)

Module Str.

(** [len(s)], in bytes. *)
Definition len (s : string) : Z := Z.of_nat (String.length s).

(** [s.rfind(c)]: index of the last occurrence of [c], [-1] if none. *)
Fixpoint rfind_from (c : ascii) (s : string) (i : Z) (last : Z) : Z :=
  match s with
  | EmptyString => last
  | String a s' => rfind_from c s' (i + 1) (if Ascii.eqb a c then i else last)
  end.
Definition rfind (c : ascii) (s : string) : Z := rfind_from c s 0 (-1).

(** [s[i:]] for [0 <= i]. *)
Definition slice_from (i : Z) (s : string) : string :=
  String.substring (Z.to_nat i) (String.length s - Z.to_nat i)%nat s.

(** [sep.join(l)] *)
Fixpoint join (sep : string) (l : list string) : string :=
  match l with
  | [] => ""
  | [x] => x
  | x :: rest => x +:+ sep +:+ join sep rest
  end.

(** [s.startswith(p)] *)
Definition startswith (p s : string) : bool := String.prefix p s.

(** The ASCII characters for which [str.isspace] holds. *)
Definition isspace (a : ascii) : bool :=
  let n := N.to_nat (N_of_ascii a) in
  ((9 <=? n) && (n <=? 13) || (28 <=? n) && (n <=? 32))%nat.

(** The white space of [str.isspace] beyond ASCII, in UTF-8: U+0085 and
    U+00A0 take two bytes; U+1680, U+2000 to U+200A, U+2028, U+2029,
    U+202F, U+205F and U+3000 take three. No byte of these encodings is an
    ASCII byte, and none of their first bytes occurs inside the encoding of
    a character, so a string is cut between characters only. *)
Definition isspace2 (a b : ascii) : bool :=
  let x := N_of_ascii a in
  let y := N_of_ascii b in
  ((x =? 194) && ((y =? 133) || (y =? 160)))%N.

Definition isspace3 (a b c : ascii) : bool :=
  let x := N_of_ascii a in
  let y := N_of_ascii b in
  let z := N_of_ascii c in
  (((x =? 225) && (y =? 154) && (z =? 128))
   || ((x =? 226) && (y =? 128)
       && (((128 <=? z) && (z <=? 138)) || (z =? 168) || (z =? 169) || (z =? 175)))
   || ((x =? 226) && (y =? 129) && (z =? 159))
   || ((x =? 227) && (y =? 128) && (z =? 128)))%N.

(** [s.lstrip()]: white-space characters are dropped from the start, one,
    two or three bytes at a time. *)
Fixpoint lstrip (s : string) : string :=
  match s with
  | EmptyString => EmptyString
  | String a s1 =>
      if isspace a then lstrip s1
      else
        match s1 with
        | EmptyString => s
        | String b s2 =>
            if isspace2 a b then lstrip s2
            else
              match s2 with
              | EmptyString => s
              | String c s3 => if isspace3 a b c then lstrip s3 else s
              end
        end
  end.

(** [s] is white space from its start to its end. *)
Fixpoint all_space (s : string) : bool :=
  match s with
  | EmptyString => true
  | String a s1 =>
      if isspace a then all_space s1
      else
        match s1 with
        | EmptyString => false
        | String b s2 =>
            if isspace2 a b then all_space s2
            else
              match s2 with
              | EmptyString => false
              | String c s3 => if isspace3 a b c then all_space s3 else false
              end
        end
  end.

(** [s.rstrip()]: the string is cut where what is left of it is white
    space only. *)
Fixpoint rstrip (s : string) : string :=
  match s with
  | EmptyString => EmptyString
  | String a s1 => if all_space s then EmptyString else String a (rstrip s1)
  end.

(** [s.strip()] *)
Definition strip (s : string) : string := rstrip (lstrip s).

(** [s.rsplit("/", 1)[-1]]: what follows the last ["/"], the whole of [s]
    when it has none. *)
Definition after_last_slash (s : string) : string :=
  slice_from (rfind "/"%char s + 1) s.

(** [s.lower()] on ASCII letters; other bytes are kept. *)
Definition lower_ascii (a : ascii) : ascii :=
  let n := N_of_ascii a in
  if ((65 <=? n) && (n <=? 90))%N then ascii_of_N (n + 32) else a.

Fixpoint lower (s : string) : string :=
  match s with
  | EmptyString => EmptyString
  | String a s' => String (lower_ascii a) (lower s')
  end.

(** [s.isascii()] *)
Fixpoint is_ascii (s : string) : bool :=
  match s with
  | EmptyString => true
  | String a s' => (N_of_ascii a <? 128)%N && is_ascii s'
  end.

End Str.

(** ** DocumentsParser.py *)

Module DocumentsParser.

(** A [pathlib.Path] as pathlib keeps it: whether it is anchored at the
    root, and its components. *)
Record Path : Type := mkPath { is_absolute : bool; parts : list string }.

(** [path.name]: the final component, [""] if there is none. *)
Definition name (p : Path) : string := List.last (parts p) "".

(** [str(path)] and [path.as_posix()] (POSIX flavour). *)
Definition str (p : Path) : string :=
  match is_absolute p, parts p with
  | false, [] => "."
  | false, ps => Str.join "/" ps
  | true, ps => "/" +:+ Str.join "/" ps
  end.
Definition as_posix (p : Path) : string := str p.

(** [path.suffix]:
    [i = name.rfind('.'); name[i:] if 0 < i < len(name) - 1 else ''] *)
Definition suffix (p : Path) : string :=
  let nm := name p in
  let i := Str.rfind "."%char nm in
  if (0 <? i) && (i <? Str.len nm - 1) then Str.slice_from i nm else "".

(** The four loader classes of [langchain_community.document_loaders]. *)
Inductive LoaderClass : Type :=
| UnstructuredPDFLoader
| UnstructuredWordDocumentLoader
| UnstructuredMarkdownLoader
| UnstructuredPowerPointLoader.

(** A constructed loader: its class and the arguments it was built with. *)
Record UnstructuredFileLoader : Type := mkLoader {
  loader_class : LoaderClass;
  file_path : string;
  mode : string;
  strategy : string;
  languages : list string;
  include_page_breaks : bool
}.

(** [get_document_loader(document_path, mode, include_page_breaks)]: a
    loader, or an [Exception] object that is returned, not raised. *)
Definition get_document_loader (document_path : Path) (mode : string)
    (include_page_breaks : bool) : UnstructuredFileLoader + PyExc :=
  let mk cls :=
    inl (mkLoader cls (as_posix document_path) mode "auto" ["rus"; "eng"]
                  include_page_breaks) in
  let sfx := suffix document_path in
  if String.eqb sfx ".pdf" then mk UnstructuredPDFLoader
  else if String.eqb sfx ".docx" then mk UnstructuredWordDocumentLoader
  else if String.eqb sfx ".md" then mk UnstructuredMarkdownLoader
  else if String.eqb sfx ".pptx" then mk UnstructuredPowerPointLoader
  else inr (Exc "Exception" ("Неподдерживаемый формат файла: " +:+ sfx)).

(** A [langchain.schema.Document]: its class name, text and metadata. *)
Record Document : Type := mkDocument {
  class_name : string;
  page_content : string;
  metadata : gmap string PyVal
}.

(** [Document(page_content=text, metadata=metadata)] *)
Definition new_Document (text : string) (md : gmap string PyVal) : Document :=
  mkDocument "Document" text md.

(** [doc.metadata[key] = v] *)
Definition set_metadata (key : string) (v : PyVal) (d : Document) : Document :=
  mkDocument (class_name d) (page_content d) (<[key := v]> (metadata d)).

(** Document objects are shared by reference: a heap of objects, a
    reference being an index into it. *)
Abbreviation loc := nat (only parsing).
Abbreviation Heap := (list Document) (only parsing).

(** What [parse_document] and [parse_documents_in_dir] hand back: a list of
    Document references, or an exception object as an ordinary value. *)
Inductive PyRet : Type :=
| PyList (docs : list loc)
| PyExcVal (e : PyExc).

(** [bool(r)]: a list is true when it is not empty; an exception object
    defines neither [__bool__] nor [__len__] and is always true. *)
Definition truthy_ret (r : PyRet) : bool :=
  match r with
  | PyList [] => false
  | PyList (_ :: _) => true
  | PyExcVal _ => true
  end.

(** [out.extend(r)]: iterating an exception object raises [TypeError]. *)
Definition extend (out : list loc) (r : PyRet) : M Heap (list loc) :=
  match r with
  | PyList docs => ret (out ++ docs)
  | PyExcVal e =>
      raise (Exc "TypeError" ("'" +:+ exc_class e +:+ "' object is not iterable"))
  end.

Section Parsing.

(** The external capabilities: [loader.load()] of the Unstructured
    loaders, which may allocate Document objects, return references to
    existing ones, or raise; and [dir_path.glob(pattern)]. *)
Context (load : UnstructuredFileLoader -> M Heap (list loc)).
Context (glob : Path -> string -> list Path).

(** [loader.load()] where [loader] is what [get_document_loader]
    returned: an [Exception] object has no [load] attribute. *)
Definition call_load (loader : UnstructuredFileLoader + PyExc)
  : M Heap (list loc) :=
  match loader with
  | inl l => load l
  | inr e =>
      raise (Exc "AttributeError"
                 ("'" +:+ exc_class e +:+ "' object has no attribute 'load'"))
  end.

(** The body of the [for doc in loader.load()] loop, on one object. *)
Definition annotate (document_path : Path) (d : Document) : Document :=
  set_metadata "type" (VStr (class_name d))
    (set_metadata "source_path" (VStr (str document_path))
       (set_metadata "source" (VStr (name document_path)) d)).

Fixpoint annotate_all (document_path : Path) (docs : list loc) (h : Heap)
  : Heap :=
  match docs with
  | [] => h
  | doc :: rest =>
      annotate_all document_path rest (alter (annotate document_path) doc h)
  end.

(** [parse_document(document_path)], called without keyword arguments.
    The [print] of the handler is not modelled. *)
Definition parse_document (document_path : Path) : M Heap PyRet :=
  try_except
    (let loader := get_document_loader document_path "single" false in
     docs <- call_load loader ;;
     (fun h => (Ret tt, annotate_all document_path docs h)) ;;;
     reloaded <- call_load loader ;;
     ret (PyList reloaded))%py
    (fun e => ret (PyExcVal e)).

(** The [for doc in tqdm(dir_path.glob(...))] loop. *)
Fixpoint walk (entries : list Path) (out : list loc) : M Heap (list loc) :=
  match entries with
  | [] => ret out
  | doc :: rest =>
      (docs <- parse_document doc ;;
       out' <- (if truthy_ret docs then extend out docs else ret out) ;;
       walk rest out')%py
  end.

(** [parse_documents_in_dir(dir_path, recursive)] *)
Definition parse_documents_in_dir (dir_path : Path) (recursive : bool)
  : M Heap PyRet :=
  (out <- walk (glob dir_path (if recursive then "**/*" else "*")) [] ;;
   ret (match out with
        | [] => PyExcVal (Exc "Exception" ("Неверный путь: " +:+ str dir_path))
        | _ :: _ => PyList out
        end))%py.

End Parsing.

End DocumentsParser.

(** ** TelegramParser.py *)

Module TelegramParser.
Import DocumentsParser.

(** A Telethon message, with the attributes the parser reads: [date] is
    the text [str(msg.date)] gives, [media] the class name of the media
    object when there is one. *)
Record Message : Type := mkMessage {
  sender_id : option Z;
  text : option string;
  id : Z;
  date : string;
  media : option string
}.

(** The [Document] built in the body of the loop. *)
Definition message_document (chat : string) (msg : Message) : Document :=
  let text := match text msg with Some t => t | None => "" end in
  new_Document text
    (<["type" := VStr (match media msg with Some cls => cls | None => "text" end)]>
     (<["date" := VStr (date msg)]>
      (<["message_id" := VInt (id msg)]>
       (<["source_path" := VStr chat]>
        (<["source" := of_opt_int (sender_id msg)]> ∅))))).

(** What the [async for] of [get_messages_from_chats] is given:
    [client.iter_messages(...)], an asynchronous iterator, inside
    [tqdm(...)]. The [tqdm] that [from tqdm import tqdm] binds is the class
    [tqdm.std.tqdm]: a progress bar around an iterable, with [__iter__] and
    without [__aiter__]. *)
Inductive Iterable : Type :=
| MessagesIter (chat : string) (limit : Z)
| Tqdm (iterable : Iterable).

Section Client.

(** [client.iter_messages(chat, limit=messages_limit)], run to its end. *)
Context {W : Type}
        (iter_messages : string -> Z -> M W (list Message)).

(** [async for msg in iterable], run to its end: the messages it yields.
    An object without [__aiter__] raises [TypeError] and nothing is
    iterated. *)
Definition async_for (iterable : Iterable) : M W (list Message) :=
  match iterable with
  | MessagesIter chat limit => iter_messages chat limit
  | Tqdm _ =>
      raise (Exc "TypeError"
                 "'async for' requires an object with __aiter__ method, got tqdm")
  end.

Fixpoint collect (chats : list string) (messages_limit : Z)
    (docs : list Document) : M W (list Document) :=
  match chats with
  | [] => ret docs
  | chat :: rest =>
      (msgs <- async_for (Tqdm (MessagesIter chat messages_limit)) ;;
       collect rest messages_limit (docs ++ map (message_document chat) msgs))%py
  end.

(** [get_messages_from_chats(client, chats, messages_limit)] *)
Definition get_messages_from_chats (chats : list string) (messages_limit : Z)
  : M W (list Document) :=
  collect chats messages_limit [].

End Client.

End TelegramParser.

(** ** VKParser.py *)

Module VKParser.
Import DocumentsParser.

(** What [utils.resolveScreenName] answers when it answers something that
    is not empty: the keys ["type"] and ["object_id"], each possibly
    absent. *)
Record ResolveData : Type := mkResolveData {
  rtype : option string;
  object_id : option Z
}.

(** A raw VK message with the keys the parser reads; [None] is a key that
    is absent or null. An attachment is a dict. *)
Record VKMessage : Type := mkVKMessage {
  msg_id : option Z;
  msg_date : option Z;
  msg_from_id : option Z;
  msg_text : option string;
  msg_attachments : option (list (gmap string PyVal));
  msg_fwd_messages : option (list PyVal)
}.

(** The answer of [messages.getHistory]: a dict whose ["items"] key may be
    absent. *)
Record HistoryResp : Type := mkHistoryResp { items : option (list VKMessage) }.

(** The API handle [vk]: its two remote methods. Each call may change the
    remote state [W] and may raise. An empty answer of
    [resolveScreenName] is [None]. *)
Class VkApiMethod (W : Type) : Type := {
  utils_resolveScreenName : string -> M W (option ResolveData);
  messages_getHistory : Z -> Z -> Z -> M W HistoryResp
}.

(** What the program does that can be observed from outside. *)
Inductive Event : Type :=
| EvResolveScreenName (screen_name : string)
| EvGetHistory (peer_id count offset : Z)
| EvSleep (seconds : Q).

(** The state the parser runs in: the remote side and the events so far,
    oldest first. *)
Record St (W : Type) : Type := mkSt { world : W; trace : list Event }.
Arguments mkSt {W} world trace.
Arguments world {W} s.
Arguments trace {W} s.

(** An input of [_normalize_peer_ids]: an [int] or a [str]. *)
Inductive PeerRef : Type :=
| PInt (n : Z)
| PStr (s : string).

Definition default_pause : Q := Qmake 34 100.

(** [_vk_message_to_document(msg, peer_id)] *)
Definition _vk_message_to_document (msg : VKMessage) (peer_id : Z) : Document :=
  let text := match msg_text msg with
              | Some t => if String.eqb t "" then "" else t
              | None => ""
              end in
  let attachments := match msg_attachments msg with
                     | Some (a :: l) => a :: l
                     | _ => []
                     end in
  let att_summ :=
    map (fun att : gmap string PyVal => default (VStr "unknown") (att !! "type"))
        attachments in
  let has_forward := match msg_fwd_messages msg with
                     | Some l => truthy (VList l)
                     | None => false
                     end in
  new_Document text
    (<["has_forward" := VBool has_forward]>
     (<["attachments" := VList att_summ]>
      (<["from_id" := of_opt_int (msg_from_id msg)]>
       (<["date" := of_opt_int (msg_date msg)]>
        (<["message_id" := of_opt_int (msg_id msg)]>
         (<["peer_id" := VInt peer_id]>
          (<["platform" := VStr "vk"]> ∅))))))).

Section Api.

Context {W : Type} {vk : VkApiMethod W}.

(** The three effects, each recorded in the trace. *)
Definition resolveScreenName (screen_name : string)
  : M (St W) (option ResolveData) :=
  fun s =>
    let '(r, w) := utils_resolveScreenName screen_name (world s) in
    (r, mkSt w (trace s ++ [EvResolveScreenName screen_name])).

Definition getHistory (peer_id count offset : Z) : M (St W) HistoryResp :=
  fun s =>
    let '(r, w) := messages_getHistory peer_id count offset (world s) in
    (r, mkSt w (trace s ++ [EvGetHistory peer_id count offset])).

Definition sleep (seconds : Q) : M (St W) unit :=
  fun s => (Ret tt, mkSt (world s) (trace s ++ [EvSleep seconds])).

(** [_resolve_screen_name(vk, name)]; [data["object_id"]] raises
    [KeyError] when the key is absent, inside the [try]. *)
Definition _resolve_screen_name (name : string) : M (St W) (option Z) :=
  let name := Str.strip name in
  let name := if Str.startswith "https://vk.com/" name
              then Str.after_last_slash name else name in
  try_except
    (data <- resolveScreenName name ;;
     match data with
     | None => ret None
     | Some d =>
         let get_object_id : M (St W) Z :=
           match object_id d with
           | Some n => ret n
           | None => raise (Exc "KeyError" "'object_id'")
           end in
         match rtype d with
         | Some t =>
             if String.eqb t "user" then (n <- get_object_id ;; ret (Some n))
             else if String.eqb t "group" then (n <- get_object_id ;; ret (Some (- n)))
             else ret None
         | None => ret None
         end
     end)%py
    (fun _ => ret None).

Definition unrecognised (pid : string) : PyExc :=
  Exc "ValueError"
      ("Не удалось распознать peer_id из '" +:+ pid +:+
       "'. Для бесед передавайте целочисленный peer_id.").

Definition is_community (pid : string) : PyExc :=
  Exc "ValueError"
      ("Экранное имя '" +:+ pid +:+
       "' указывает на сообщество. Передайте integer peer_id явным образом или используйте диалоги из messages.getConversations.").

(** The [for pid in peer_ids] loop of [_normalize_peer_ids], with the
    list built so far. *)
Fixpoint normalize_loop (peer_ids : list PeerRef) (out : list Z)
  : M (St W) (list Z) :=
  match peer_ids with
  | [] => ret out
  | PInt n :: rest => normalize_loop rest (out ++ [n])
  | PStr pid :: rest =>
      (resolved <- _resolve_screen_name pid ;;
       match resolved with
       | None => raise (unrecognised pid)
       | Some r =>
           if 0 <? r then normalize_loop rest (out ++ [r])
           else raise (is_community pid)
       end)%py
  end.

(** [_normalize_peer_ids(vk, peer_ids)] *)
Definition _normalize_peer_ids (peer_ids : list PeerRef) : M (St W) (list Z) :=
  normalize_loop peer_ids [].

(** [len(batch)] *)
Definition len (batch : list VKMessage) : Z := Z.of_nat (length batch).

(** The [while got < limit] loop of [_fetch_history]. It ends because
    [limit - got] decreases whenever the loop goes round again. *)
Equations? fetch_loop (peer_id limit per_call : Z) (pause : Q)
    (got offset : Z) (items : list VKMessage) (s : St W)
  : Res (list VKMessage) * St W by wf (Z.to_nat (limit - got)) lt :=
  fetch_loop peer_id limit per_call pause got offset items s
    with Z_lt_dec got limit => {
    | right _ => (Ret items, s)
    | left Hlt
        with getHistory peer_id (Z.min per_call (limit - got)) offset s => {
        | (Raise e, s1) => (Raise e, s1)
        | (Ret resp, s1) with default [] (VKParser.items resp) => {
            | [] => (Ret items, s1)
            | m :: b
                with sleep pause s1 => {
                | (_, s2) =>
                    if len (m :: b) <? Z.min per_call (limit - got)
                    then (Ret (items ++ m :: b), s2)
                    else fetch_loop peer_id limit per_call pause
                           (got + len (m :: b)) (offset + len (m :: b))
                           (items ++ m :: b) s2 } } } }.
Proof. unfold len. simpl length. lia. Qed.

(** [_fetch_history(vk, peer_id, limit, pause)] *)
Definition _fetch_history (peer_id limit : Z) (pause : Q)
  : M (St W) (list VKMessage) :=
  let per_call := if 200 <? limit then 200 else limit in
  fetch_loop peer_id limit per_call pause 0 0 [].

(** The [for pid in normalized_peers] loop of [get_messages_from_vk]. *)
Fixpoint fetch_peers (peers : list Z) (limit_per_dialog : Z)
    (docs : list Document) : M (St W) (list Document) :=
  match peers with
  | [] => ret docs
  | pid :: rest =>
      (raw_msgs <- _fetch_history pid limit_per_dialog default_pause ;;
       fetch_peers rest limit_per_dialog
         (docs ++ map (fun m => _vk_message_to_document m pid) raw_msgs))%py
  end.

(** [get_messages_from_vk(vk_session, peer_ids, limit_per_dialog)] *)
Definition get_messages_from_vk (peer_ids : list PeerRef) (limit_per_dialog : Z)
  : M (St W) (list Document) :=
  (normalized_peers <- _normalize_peer_ids peer_ids ;;
   fetch_peers normalized_peers limit_per_dialog [])%py.

End Api.

(** A [vk_api.VkApi] session: the token it was built with. *)
Record VkApi : Type := mkVkApi { token : string }.

(** [_build_vk_client(mode, user_token, group_token)], with the process
    environment [os.environ] as a mapping. [mode.lower().strip()] is
    modelled for a [mode] of ASCII characters. *)
Definition _build_vk_client (environ : gmap string string) (mode : string)
    (user_token group_token : option string) : Res VkApi :=
  let mode := Str.strip (Str.lower mode) in
  if negb (String.eqb mode "user" || String.eqb mode "group")
  then Raise (Exc "ValueError" "mode должен быть 'user' или 'group'")
  else
    let token := if String.eqb mode "user" then user_token else group_token in
    let token :=
      match token with
      | None =>
          environ !! (if String.eqb mode "user" then "VK_USER_TOKEN"
                      else "VK_GROUP_TOKEN")
      | Some t => Some t
      end in
    let missing :=
      Raise (Exc "RuntimeError"
               ("Не найден токен для режима " +:+ mode +:+
                ". Передайте явный токен или задайте переменную окружения " +:+
                (if String.eqb mode "user" then "VK_USER_TOKEN"
                 else "VK_GROUP_TOKEN") +:+ ".")) in
    match token with
    | None => missing
    | Some t => if String.eqb t "" then missing else Ret (mkVkApi t)
    end.

Section Dialogs.

(** [vk_session.get_api()]: the API handle of a session. *)
Context {W : Type} (get_api : VkApi -> VkApiMethod W).

(** [parse_vk_dialogs(mode, peer_ids, limit_per_dialog, user_token,
    group_token)] *)
Definition parse_vk_dialogs (environ : gmap string string) (mode : string)
    (peer_ids : list PeerRef) (limit_per_dialog : Z)
    (user_token group_token : option string) : M (St W) (list Document) :=
  fun s =>
    match _build_vk_client environ mode user_token group_token with
    | Raise e => (Raise e, s)
    | Ret session =>
        get_messages_from_vk (vk := get_api session) peer_ids limit_per_dialog s
    end.

End Dialogs.

End VKParser.


(** * Vocabulary of the properties *)

(** ** Documents *)

Module DocumentSpec.
Import DocumentsParser.

(** The metadata mapping has the key [k]. *)
Definition has_key (k : string) (d : Document) : bool :=
  match metadata d !! k with Some _ => true | None => false end.

(** The invariant of the data model: a metadata mapping that is not empty
    and has the keys ["source"] and ["type"]. *)
Definition document_invariant (d : Document) : Prop :=
  metadata d ≠ ∅ ∧ has_key "source" d = true ∧ has_key "type" d = true.

(** The Documents a list of references stands for. *)
Definition deref (h : Heap) (docs : list loc) : list (option Document) :=
  map (fun l => h !! l) docs.

(** What the loop of [parse_document] leaves on an object. *)
Definition annotated (document_path : Path) (d : Document) : Prop :=
  metadata d !! "source" = Some (VStr (name document_path)) ∧
  metadata d !! "source_path" = Some (VStr (str document_path)) ∧
  metadata d !! "type" = Some (VStr (class_name d)).

End DocumentSpec.

(** ** Test doubles for the external capabilities *)

Module Doubles.
Import DocumentsParser TelegramParser VKParser.

(** A double of the Unstructured loaders in mode ["single"], as langchain
    writes them: each [load()] reads the file again and builds one new
    [Document], whose metadata is [{"source": file_path}]. The files are
    given by their text. *)
Definition langchain_load (files : gmap string string)
  : UnstructuredFileLoader -> M Heap (list loc) :=
  fun loader h =>
    match files !! file_path loader with
    | Some text =>
        (Ret [length h],
         h ++ [new_Document text {[ "source" := VStr (file_path loader) ]}])
    | None =>
        (Raise (Exc "FileNotFoundError" (file_path loader)), h)
    end.

Definition docs_dir : Path := mkPath false ["docs"].
Definition notes_md : Path := mkPath false ["docs"; "notes.md"].
Definition todo_txt : Path := mkPath false ["docs"; "todo.txt"].

Definition docs_files : gmap string string :=
  {[ "docs/notes.md" := "# Notes"; "docs/todo.txt" := "buy milk" ]}.

(** A folder with one Markdown file and one file of another format. *)
Definition glob_mixed (dir : Path) (pattern : string) : list Path :=
  [notes_md; todo_txt].

(** A folder without any file of a supported format. *)
Definition glob_unsupported (dir : Path) (pattern : string) : list Path :=
  [todo_txt].

(** A Telegram channel with two messages, one of them a photo without
    text. *)
Definition channel_messages : list Message :=
  [ mkMessage (Some 42) (Some "hello") 2 "2025-02-05 10:00:00+00:00" None;
    mkMessage None None 1 "2025-02-05 09:00:00+00:00" (Some "MessageMediaPhoto") ].

Definition channel (chat : string) (limit : Z) : M unit (list Message) :=
  fun w => (Ret (take (Z.to_nat limit) channel_messages), w).

Definition blank : VKMessage := mkVKMessage None None None None None None.

(** A dialog of [n] messages, numbered from the newest. *)
Definition dialog (n : nat) : list VKMessage :=
  map (fun i => mkVKMessage (Some (Z.of_nat i)) None None (Some "hi") None None)
      (seq 0 n).

(** A server that holds [n] messages for every peer, knows the user
    ["durov"] and the community ["club"], and has no other screen name. *)
Definition server (n : nat) : VkApiMethod unit := {|
  utils_resolveScreenName := fun screen_name w =>
    (Ret (if String.eqb screen_name "durov" then Some (mkResolveData (Some "user") (Some 1))
          else if String.eqb screen_name "club" then Some (mkResolveData (Some "group") (Some 5))
          else None), w);
  messages_getHistory := fun peer_id count offset w =>
    (Ret (mkHistoryResp
            (Some (take (Z.to_nat count) (drop (Z.to_nat offset) (dialog n))))), w)
|}.

(** A server that never runs out of messages. *)
Definition endless : VkApiMethod unit := {|
  utils_resolveScreenName := fun _ w => (Ret None, w);
  messages_getHistory := fun peer_id count offset w =>
    (Ret (mkHistoryResp (Some (replicate (Z.to_nat count) blank))), w)
|}.

Definition api_error : PyExc := Exc "ApiError" "[5] User authorization failed".

(** A server whose every call fails. *)
Definition offline : VkApiMethod unit := {|
  utils_resolveScreenName := fun _ w => (Raise api_error, w);
  messages_getHistory := fun _ _ _ w => (Raise api_error, w)
|}.

Definition start : St unit := mkSt tt [].

(** U+00A0 and U+3000, white space for [str.strip], and U+200B, which is
    not, in UTF-8. *)
Definition no_break_space : string :=
  String (ascii_of_N 194) (String (ascii_of_N 160) "").
Definition ideographic_space : string :=
  String (ascii_of_N 227) (String (ascii_of_N 128) (String (ascii_of_N 128) "")).
Definition zero_width_space : string :=
  String (ascii_of_N 226) (String (ascii_of_N 128) (String (ascii_of_N 139) "")).

(** A process environment with a user token only. *)
Definition environ_user : gmap string string :=
  {[ "VK_USER_TOKEN" := "vk1.a.user" ]}.

(** Every session talks to the server of 300 messages. *)
Definition get_api_server (session : VkApi) : VkApiMethod unit := server 300.

End Doubles.

(** ** Traces of the fetch loop and outcomes of peer normalisation *)

Module VKSpec.
Import VKParser.

(** The [(count, offset)] of the history calls of a trace, in order. *)
Fixpoint calls (t : list Event) : list (Z * Z) :=
  match t with
  | [] => []
  | EvGetHistory _ count offset :: t' => (count, offset) :: calls t'
  | _ :: t' => calls t'
  end.

(** No history call is directly followed by another one. *)
Fixpoint no_adjacent_calls (t : list Event) : bool :=
  match t with
  | [] => true
  | EvGetHistory _ _ _ :: t' =>
      match t' with
      | EvGetHistory _ _ _ :: _ => false
      | _ => no_adjacent_calls t'
      end
  | _ :: t' => no_adjacent_calls t'
  end.

(** Every sleep of the trace lasts [pause]. *)
Definition sleeps_last (pause : Q) (t : list Event) : Prop :=
  Forall (fun ev => match ev with EvSleep q => q = pause | _ => True end) t.

(** The events one run of the loop can add to the trace, from the loop
    state [(got, offset)]. The last call is one that raised or came back
    empty ([run_last]), or one whose batch was short or reached the limit
    ([run_short], [run_more] followed by [run_stop]). *)
Inductive loop_events (peer_id limit per_call : Z) (pause : Q)
  : Z -> Z -> list Event -> Prop :=
| run_stop got offset :
    ¬ got < limit ->
    loop_events peer_id limit per_call pause got offset []
| run_last got offset :
    got < limit ->
    loop_events peer_id limit per_call pause got offset
      [EvGetHistory peer_id (Z.min per_call (limit - got)) offset]
| run_short got offset :
    got < limit ->
    loop_events peer_id limit per_call pause got offset
      [EvGetHistory peer_id (Z.min per_call (limit - got)) offset; EvSleep pause]
| run_more got offset n rest :
    got < limit -> 0 < n ->
    loop_events peer_id limit per_call pause (got + n) (offset + n) rest ->
    loop_events peer_id limit per_call pause got offset
      (EvGetHistory peer_id (Z.min per_call (limit - got)) offset
         :: EvSleep pause :: rest).

(** The screen name [_resolve_screen_name] sends to the remote side. *)
Definition screen_name_of (name : string) : string :=
  let name := Str.strip name in
  if Str.startswith "https://vk.com/" name then Str.after_last_slash name else name.

(** The id read off an answer of [utils.resolveScreenName]: positive for a
    user, negated for a community, nothing otherwise. *)
Definition resolution (answer : Res (option ResolveData)) : option Z :=
  match answer with
  | Ret (Some d) =>
      match rtype d, object_id d with
      | Some t, Some n =>
          if String.eqb t "user" then Some n
          else if String.eqb t "group" then Some (- n)
          else None
      | _, _ => None
      end
  | _ => None
  end.

(** The two errors [_normalize_peer_ids] is to raise, with the messages
    of the source: for a name that is not recognised, and for a name of a
    community. *)
Definition not_recognised_error (pid : string) : PyExc :=
  Exc "ValueError"
      ("Не удалось распознать peer_id из '" +:+ pid +:+
       "'. Для бесед передавайте целочисленный peer_id.").

Definition community_error (pid : string) : PyExc :=
  Exc "ValueError"
      ("Экранное имя '" +:+ pid +:+
       "' указывает на сообщество. Передайте integer peer_id явным образом или используйте диалоги из messages.getConversations.").

(** [e] is a [ValueError] whose message has the input [pid] in it, between
    quotes. *)
Definition names_input (e : PyExc) (pid : string) : Prop :=
  exc_class e = "ValueError" ∧
  ∃ before after, exc_msg e = before +:+ "'" +:+ pid +:+ "'" +:+ after.

Section WithApi.
Context {W : Type} {vk : VkApiMethod W}.

(** Every call answers a batch of exactly the size asked for. *)
Definition full_batches : Prop :=
  ∀ peer_id count offset w, 0 <= count ->
    ∃ batch w',
      messages_getHistory peer_id count offset w
        = (Ret (mkHistoryResp (Some batch)), w') ∧
      len batch = count.

(** [m] is what the input [p] contributes to the output: an integer
    itself, a string an id it resolved to, which is positive. *)
Definition accepted (p : PeerRef) (m : Z) : Prop :=
  match p with
  | PInt n => m = n
  | PStr pid =>
      0 < m ∧ ∃ s1 s2 : St W, _resolve_screen_name pid s1 = (Ret (Some m), s2)
  end.

(** [e] is the error for the string [pid]: the one of a name that did not
    resolve, or the one of a name that resolved to an id that is not
    positive. *)
Definition rejected (pid : string) (e : PyExc) : Prop :=
  (e = not_recognised_error pid ∧
   ∃ s1 s2 : St W, _resolve_screen_name pid s1 = (Ret None, s2)) ∨
  (e = community_error pid ∧
   ∃ r (s1 s2 : St W), _resolve_screen_name pid s1 = (Ret (Some r), s2) ∧ r <= 0).

End WithApi.

(** The specification's statement that an error of the name-resolution
    endpoint comes out of
    [_resolve_screen_name] as it is. *)
Definition resolution_errors_propagate : Prop :=
  ∀ (W : Type) (vk : VkApiMethod W) (name : string) (s : St W) e w,
    utils_resolveScreenName (screen_name_of name) (world s) = (Raise e, w) ->
    fst (_resolve_screen_name name s) = Raise e.

End VKSpec.

(** ** Runs of the callers *)

Module RunSpec.
Import DocumentsParser TelegramParser VKParser VKSpec.

(** The string inputs of [_normalize_peer_ids], in order. *)
Fixpoint strings_of (peer_ids : list PeerRef) : list string :=
  match peer_ids with
  | [] => []
  | PStr pid :: rest => pid :: strings_of rest
  | PInt _ :: rest => strings_of rest
  end.

(** One name-resolution call for each of [names], in order. *)
Definition resolve_events (names : list string) : list Event :=
  map (fun name => EvResolveScreenName (screen_name_of name)) names.

(** The screen names a trace asks the remote side to resolve. *)
Fixpoint resolutions (t : list Event) : list string :=
  match t with
  | [] => []
  | EvResolveScreenName name :: t' => name :: resolutions t'
  | _ :: t' => resolutions t'
  end.

(** The sleeps of a trace. *)
Fixpoint sleeps (t : list Event) : list Q :=
  match t with
  | [] => []
  | EvSleep q :: t' => q :: sleeps t'
  | _ :: t' => sleeps t'
  end.

(** The Documents of the messages fetched for each peer, peer by peer. *)
Definition dialog_documents (peers : list Z) (fetched : list (list VKMessage))
  : list Document :=
  concat (zip_with (fun pid msgs => map (fun m => _vk_message_to_document m pid) msgs)
                   peers fetched).

(** What the loop of [parse_document] may change of an object: the three
    metadata keys, nothing else. *)
Definition same_but_annotation (d d' : Document) : Prop :=
  class_name d' = class_name d ∧
  page_content d' = page_content d ∧
  ∀ key, key ≠ "source" -> key ≠ "source_path" -> key ≠ "type" ->
         metadata d' !! key = metadata d !! key.

(** The loader class of a supported suffix. *)
Definition loader_class_of (sfx : string) : option LoaderClass :=
  if String.eqb sfx ".pdf" then Some UnstructuredPDFLoader
  else if String.eqb sfx ".docx" then Some UnstructuredWordDocumentLoader
  else if String.eqb sfx ".md" then Some UnstructuredMarkdownLoader
  else if String.eqb sfx ".pptx" then Some UnstructuredPowerPointLoader
  else None.

(** The token in force for a mode: the one given explicitly, or else the
    one of the environment variable of the mode. *)
Definition token_in_force (environ : gmap string string)
    (explicit : option string) (variable : string) : option string :=
  match explicit with
  | Some t => Some t
  | None => environ !! variable
  end.

(** The message of the [RuntimeError] of [_build_vk_client]. *)
Definition token_not_found (mode variable : string) : PyExc :=
  Exc "RuntimeError"
      ("Не найден токен для режима " +:+ mode +:+
       ". Передайте явный токен или задайте переменную окружения " +:+
       variable +:+ ".").

Section WithApi.
Context {W : Type} {vk : VkApiMethod W}.

(** The remote side keeps, for each peer, a history that does not change,
    and answers a call with the [count] messages from [offset] on. *)
Definition serves (history : Z -> list VKMessage) : Prop :=
  ∀ peer_id count offset w, 0 <= count -> 0 <= offset ->
    ∃ w',
      messages_getHistory peer_id count offset w =
      (Ret (mkHistoryResp
              (Some (take (Z.to_nat count)
                          (drop (Z.to_nat offset) (history peer_id))))), w').

(** The remote side never answers more messages than it was asked for. *)
Definition answers_at_most_count : Prop :=
  ∀ peer_id count offset w resp w', 0 <= count ->
    messages_getHistory peer_id count offset w = (Ret resp, w') ->
    len (default [] (VKParser.items resp)) <= count.

End WithApi.

End RunSpec.


(** * Properties *)

(** ** Paths and the choice of a loader *)

Section Loader.
Import DocumentsParser Doubles.

Example suffix_md : suffix (mkPath false ["docs"; "notes.v2.md"]) = ".md".
Proof. reflexivity. Qed.

Example suffix_hidden : suffix (mkPath false [".bashrc"]) = "".
Proof. reflexivity. Qed.

Example suffix_trailing_dot : suffix (mkPath false ["a."]) = "".
Proof. reflexivity. Qed.

Example suffix_upper_case : suffix (mkPath true ["srv"; "REPORT.PDF"]) = ".PDF".
Proof. reflexivity. Qed.

Example str_absolute : str (mkPath true ["srv"; "a.md"]) = "/srv/a.md".
Proof. reflexivity. Qed.

(** C9. [get_document_loader] on a path with suffix [.pdf], [.docx], [.md]
    or [.pptx] returns the loader of that format, built on the path with
    [mode] and [include_page_breaks] as they were given and with
    [languages = ["rus"; "eng"]]; on any other suffix it returns an
    [Exception] value whose message ends with that suffix. *)
Theorem get_document_loader_spec document_path mode include_page_breaks :
  let sfx := suffix document_path in
  let loader cls :=
    mkLoader cls (as_posix document_path) mode "auto" ["rus"; "eng"]
             include_page_breaks in
  let result := get_document_loader document_path mode include_page_breaks in
  (sfx = ".pdf" -> result = inl (loader UnstructuredPDFLoader)) ∧
  (sfx = ".docx" -> result = inl (loader UnstructuredWordDocumentLoader)) ∧
  (sfx = ".md" -> result = inl (loader UnstructuredMarkdownLoader)) ∧
  (sfx = ".pptx" -> result = inl (loader UnstructuredPowerPointLoader)) ∧
  (sfx ∉ [".pdf"; ".docx"; ".md"; ".pptx"] ->
   result = inr (Exc "Exception" ("Неподдерживаемый формат файла: " +:+ sfx))).
Proof.
  cbv zeta. unfold get_document_loader.
  repeat split; try (intros ->; reflexivity).
  intros Hnot.
  repeat match goal with
         | |- context [String.eqb ?a ?b] =>
             destruct (String.eqb_spec a b) as [E|_];
             [exfalso; apply Hnot; rewrite E; set_solver|]
         end.
  reflexivity.
Qed.

Lemma get_document_loader_spec_witness :
  get_document_loader notes_md "elements" true
    = inl (mkLoader UnstructuredMarkdownLoader "docs/notes.md" "elements" "auto"
                    ["rus"; "eng"] true) ∧
  get_document_loader todo_txt "single" false
    = inr (Exc "Exception" "Неподдерживаемый формат файла: .txt").
Proof.
  split.
  - apply (get_document_loader_spec notes_md "elements" true). reflexivity.
  - apply (get_document_loader_spec todo_txt "single" false).
    vm_compute. intros H. repeat (inversion H as [|? ? ? H']; clear H; rename H' into H).
Defined.

End Loader.

(** ** Parsing one file and walking a folder *)

Section FileParsing.
Import DocumentsParser DocumentSpec Doubles.

Context (load : UnstructuredFileLoader -> M Heap (list loc)).
Context (glob : Path -> string -> list Path).

Lemma annotate_annotated document_path d : annotated document_path (annotate document_path d).
Proof. unfold annotated, annotate, set_metadata. simpl. by simplify_map_eq. Qed.

Lemma annotate_all_keeps document_path docs h l d :
  h !! l = Some d -> annotated document_path d ->
  ∃ d', annotate_all document_path docs h !! l = Some d' ∧ annotated document_path d'.
Proof.
  revert h d. induction docs as [|doc rest IH]; intros h d Hl Hd; simpl; [eauto|].
  destruct (decide (doc = l)) as [->|Hne].
  - eapply IH; [by rewrite list_lookup_alter_eq, Hl|apply annotate_annotated].
  - eapply IH; [by rewrite list_lookup_alter_ne|done].
Qed.

(** The loop annotates every object of the list it iterates. *)
Lemma annotate_all_lookup document_path docs h l :
  l ∈ docs -> is_Some (h !! l) ->
  ∃ d', annotate_all document_path docs h !! l = Some d' ∧ annotated document_path d'.
Proof.
  revert h. induction docs as [|doc rest IH]; intros h Hin [d Hl]; [set_solver|].
  simpl. destruct (decide (doc = l)) as [->|Hne].
  - eapply annotate_all_keeps; [by rewrite list_lookup_alter_eq, Hl|].
    apply annotate_annotated.
  - apply IH.
    + apply elem_of_cons in Hin as [->|Hin]; done.
    + rewrite list_lookup_alter_ne by done. eauto.
Qed.

(** [parse_document] catches whatever is raised and returns it. *)
Lemma parse_document_returns document_path h :
  ∃ r h', parse_document load document_path h = (Ret r, h').
Proof.
  unfold parse_document, try_except, bind, ret.
  destruct (call_load load _ h) as [[docs|e] h1]; [|eauto].
  destruct (call_load load _ (annotate_all _ _ h1)) as [[docs'|e] h2]; eauto.
Qed.

(** What it returns is the list of the second [loader.load()]. *)
Lemma parse_document_reloads document_path loader h docs h1 docs' h2 :
  get_document_loader document_path "single" false = inl loader ->
  load loader h = (Ret docs, h1) ->
  load loader (annotate_all document_path docs h1) = (Ret docs', h2) ->
  parse_document load document_path h = (Ret (PyList docs'), h2).
Proof.
  intros Hl H1 H2. unfold parse_document, try_except, bind, ret.
  rewrite Hl. simpl. by rewrite H1, H2.
Qed.

(** A path without a supported suffix gives an [AttributeError] object. *)
Lemma parse_document_unsupported document_path e h :
  get_document_loader document_path "single" false = inr e ->
  parse_document load document_path h =
  (Ret (PyExcVal (Exc "AttributeError"
                      ("'" +:+ exc_class e +:+ "' object has no attribute 'load'"))), h).
Proof. intros Hl. unfold parse_document, try_except, bind, ret. by rewrite Hl. Qed.

(** An entry whose parse returns an exception object ends the walk with a
    [TypeError], whatever was collected and whatever entries remain. *)
Lemma walk_failed_entry entry rest out h e h' :
  parse_document load entry h = (Ret (PyExcVal e), h') ->
  walk load (entry :: rest) out h =
  (Raise (Exc "TypeError" ("'" +:+ exc_class e +:+ "' object is not iterable")), h').
Proof. intros Hp. simpl. unfold bind. by rewrite Hp. Qed.

(** An entry whose parse returns a list adds it and the walk goes on. *)
Lemma walk_parsed_entry entry rest out h docs h' :
  parse_document load entry h = (Ret (PyList docs), h') ->
  walk load (entry :: rest) out h = walk load rest (out ++ docs) h'.
Proof.
  intros Hp. simpl. unfold bind. rewrite Hp.
  destruct docs; simpl; [by rewrite app_nil_r|done].
Qed.

Lemma walk_app pre post out h :
  walk load (pre ++ post) out h =
  match walk load pre out h with
  | (Ret out', h') => walk load post out' h'
  | (Raise e, h') => (Raise e, h')
  end.
Proof.
  revert out h. induction pre as [|entry pre IH]; intros out h; simpl; [done|].
  unfold bind. destruct (parse_document load entry h) as [[docs|e] h1]; [|done].
  destruct (truthy_ret docs); simpl.
  - destruct (extend out docs h1) as [[out'|e] h2]; [apply IH|done].
  - apply IH.
Qed.

(** The walk does not get past an entry without a supported suffix, a
    sub-folder for one: it raises there. *)
Lemma walk_unsupported_entry pre entry post out h out' h' e :
  walk load pre out h = (Ret out', h') ->
  get_document_loader entry "single" false = inr e ->
  walk load (pre ++ entry :: post) out h =
  (Raise (Exc "TypeError" "'AttributeError' object is not iterable"), h').
Proof.
  intros Hpre Hl. rewrite walk_app, Hpre.
  by erewrite walk_failed_entry by by apply parse_document_unsupported.
Qed.

End FileParsing.

(** C2. A folder with one Markdown file and one file of an unsupported
    format: the walk does not return the Markdown file's Documents, it
    raises [TypeError] at the unsupported entry. A folder with files of
    unsupported formats only: the walk raises the same [TypeError], it does
    not return the [Exception] value of an empty result. *)
Theorem walk_aborts_on_failed_entry :
  fst (DocumentsParser.parse_documents_in_dir
         (Doubles.langchain_load Doubles.docs_files) Doubles.glob_mixed
         Doubles.docs_dir true [])
  = Raise (Exc "TypeError" "'AttributeError' object is not iterable") ∧
  fst (DocumentsParser.parse_documents_in_dir
         (Doubles.langchain_load Doubles.docs_files) Doubles.glob_unsupported
         Doubles.docs_dir true [])
  = Raise (Exc "TypeError" "'AttributeError' object is not iterable").
Proof. split; vm_compute; reflexivity. Qed.

(** C3. [parse_document] on [docs/notes.md], with loaders that build their
    Documents anew at each [load()]: the object that was annotated (the one
    of the first load, at reference 0) is not the one returned (the one of
    the second load, at reference 1), whose metadata is what the loader put
    there: [source] is the path given to the loader, not the base name, and
    there is neither [source_path] nor [type]. *)
Theorem parse_document_returns_reloaded_documents :
  let run := DocumentsParser.parse_document
               (Doubles.langchain_load Doubles.docs_files) Doubles.notes_md [] in
  fst run = Ret (DocumentsParser.PyList [1%nat]) ∧
  (∃ d, snd run !! 1%nat = Some d ∧
        DocumentsParser.metadata d = {[ "source" := VStr "docs/notes.md" ]} ∧
        ¬ DocumentSpec.annotated Doubles.notes_md d) ∧
  (∃ d, snd run !! 0%nat = Some d ∧
        DocumentSpec.annotated Doubles.notes_md d).
Proof.
  cbv zeta. split; [vm_compute; reflexivity|]. split.
  - eexists. split; [vm_compute; reflexivity|]. split; [vm_compute; reflexivity|].
    intros (Hsource & _). vm_compute in Hsource. discriminate Hsource.
  - eexists. split; [vm_compute; reflexivity|].
    repeat split; vm_compute; reflexivity.
Qed.

(** ** The fetch loop *)

Section FetchLoop.
Import VKParser VKSpec.

Context {W : Type} {vk : VkApiMethod W}.

(** One round of the loop, as the source writes it. *)
Lemma fetch_loop_unfold peer_id limit per_call pause got offset items s :
  fetch_loop peer_id limit per_call pause got offset items s =
  if decide (got < limit) then
    let count := Z.min per_call (limit - got) in
    match getHistory peer_id count offset s with
    | (Raise e, s1) => (Raise e, s1)
    | (Ret resp, s1) =>
        match default [] (VKParser.items resp) with
        | [] => (Ret items, s1)
        | m :: b =>
            let s2 := snd (sleep pause s1) in
            if len (m :: b) <? count then (Ret (items ++ m :: b), s2)
            else fetch_loop peer_id limit per_call pause
                   (got + len (m :: b)) (offset + len (m :: b))
                   (items ++ m :: b) s2
        end
    end
  else (Ret items, s).
Proof.
  simp fetch_loop.
  destruct (Z_lt_dec got limit) as [Hlt|Hge]; simpl.
  - rewrite decide_True by done.
    destruct (getHistory _ _ _ s) as [[resp|e] s1]; simpl; [|done].
    destruct (default [] (VKParser.items resp)) as [|m b]; simpl; done.
  - by rewrite decide_False.
Qed.

Lemma getHistory_trace peer_id count offset s r s1 :
  getHistory peer_id count offset s = (r, s1) ->
  trace s1 = trace s ++ [EvGetHistory peer_id count offset] ∧
  messages_getHistory peer_id count offset (world s) = (r, world s1).
Proof.
  unfold getHistory.
  destruct (messages_getHistory peer_id count offset (world s)) as [r' w] eqn:E.
  by intros [= <- <-].
Qed.

Lemma len_app (a b : list VKMessage) : len (a ++ b) = len a + len b.
Proof. unfold len. rewrite length_app. lia. Qed.

Lemma len_cons_pos m (b : list VKMessage) : 0 < len (m :: b).
Proof. unfold len. simpl length. lia. Qed.

Lemma fetch_loop_done peer_id limit per_call pause got offset items s :
  ¬ got < limit ->
  fetch_loop peer_id limit per_call pause got offset items s = (Ret items, s).
Proof. intros. by rewrite fetch_loop_unfold, decide_False. Qed.

(** A round in which the endpoint raises. *)
Lemma fetch_loop_raise peer_id limit per_call pause got offset items s e w :
  got < limit ->
  messages_getHistory peer_id (Z.min per_call (limit - got)) offset (world s)
    = (Raise e, w) ->
  fetch_loop peer_id limit per_call pause got offset items s =
  (Raise e,
   mkSt w (trace s ++ [EvGetHistory peer_id (Z.min per_call (limit - got)) offset])).
Proof.
  intros Hlt Hcall. rewrite fetch_loop_unfold, decide_True by done.
  cbv zeta. unfold getHistory. by rewrite Hcall.
Qed.

(** A round in which the endpoint answers an empty batch. *)
Lemma fetch_loop_empty peer_id limit per_call pause got offset items s resp w :
  got < limit ->
  messages_getHistory peer_id (Z.min per_call (limit - got)) offset (world s)
    = (Ret resp, w) ->
  default [] (VKParser.items resp) = [] ->
  fetch_loop peer_id limit per_call pause got offset items s =
  (Ret items,
   mkSt w (trace s ++ [EvGetHistory peer_id (Z.min per_call (limit - got)) offset])).
Proof.
  intros Hlt Hcall Hb. rewrite fetch_loop_unfold, decide_True by done.
  cbv zeta. unfold getHistory. by rewrite Hcall, Hb.
Qed.

(** A round in which the endpoint answers a batch that is not empty. *)
Lemma fetch_loop_batch peer_id limit per_call pause got offset items s resp w m b :
  got < limit ->
  messages_getHistory peer_id (Z.min per_call (limit - got)) offset (world s)
    = (Ret resp, w) ->
  default [] (VKParser.items resp) = m :: b ->
  let count := Z.min per_call (limit - got) in
  let s2 := mkSt w (trace s ++ [EvGetHistory peer_id count offset; EvSleep pause]) in
  fetch_loop peer_id limit per_call pause got offset items s =
  if len (m :: b) <? count then (Ret (items ++ m :: b), s2)
  else fetch_loop peer_id limit per_call pause
         (got + len (m :: b)) (offset + len (m :: b)) (items ++ m :: b) s2.
Proof.
  intros Hlt Hcall Hb. rewrite fetch_loop_unfold, decide_True by done.
  cbv zeta. unfold getHistory. rewrite Hcall, Hb. unfold sleep. simpl.
  by rewrite <- app_assoc.
Qed.

(** Every run of the loop extends the trace by a sequence of
    [loop_events]. *)
Lemma fetch_loop_events peer_id limit per_call pause got offset items s :
  ∃ new,
    trace (snd (fetch_loop peer_id limit per_call pause got offset items s))
      = trace s ++ new ∧
    loop_events peer_id limit per_call pause got offset new.
Proof.
  remember (Z.to_nat (limit - got)) as k eqn:Hk.
  revert got offset items s Hk.
  induction (lt_wf k) as [k _ IH]; intros got offset items s ->.
  rewrite fetch_loop_unfold.
  case_decide as Hlt; simpl.
  2:{ exists []. rewrite app_nil_r. split; [done|by constructor]. }
  destruct (getHistory _ _ _ s) as [[resp|e] s1] eqn:Hcall;
    apply getHistory_trace in Hcall as [Ht _]; simpl.
  2:{ eexists; split; [exact Ht|by constructor]. }
  destruct (default [] (VKParser.items resp)) as [|m b]; simpl.
  { eexists; split; [exact Ht|by constructor]. }
  pose proof (len_cons_pos m b) as Hpos.
  case_match; simpl.
  { eexists. rewrite Ht, <- app_assoc. split; [done|by constructor]. }
  edestruct (IH (Z.to_nat (limit - (got + len (m :: b)))))
    as (rest & Hrest & Hev); [lia|done|].
  eexists. rewrite Hrest. simpl. rewrite Ht, <- !app_assoc. simpl.
  split; [done|]. by apply run_more with (n := len (m :: b)).
Qed.

(** An exception that comes out of the loop is the one the endpoint raised
    in the last call of the trace. *)
Lemma fetch_loop_raised peer_id limit per_call pause got offset items s e s' :
  fetch_loop peer_id limit per_call pause got offset items s = (Raise e, s') ->
  ∃ before count offset' w,
    trace s' = before ++ [EvGetHistory peer_id count offset'] ∧
    messages_getHistory peer_id count offset' w = (Raise e, world s').
Proof.
  remember (Z.to_nat (limit - got)) as k eqn:Hk.
  revert got offset items s Hk.
  induction (lt_wf k) as [k _ IH]; intros got offset items s ->.
  rewrite fetch_loop_unfold.
  case_decide as Hlt; simpl; [|done].
  destruct (getHistory _ _ _ s) as [[resp|e0] s1] eqn:Hcall;
    apply getHistory_trace in Hcall as [Ht Hw]; simpl.
  2:{ intros [= <- <-]. eauto 10. }
  destruct (default [] (VKParser.items resp)) as [|m b]; simpl; [done|].
  pose proof (len_cons_pos m b) as Hpos.
  case_match; simpl; [done|].
  eapply IH; [|done]. lia.
Qed.

Lemma calls_app t1 t2 : calls (t1 ++ t2) = calls t1 ++ calls t2.
Proof.
  induction t1 as [|[] t1 IH]; simpl; [done|done| |done]. by rewrite IH.
Qed.

Lemma loop_events_calls_bound peer_id limit per_call pause got offset new :
  loop_events peer_id limit per_call pause got offset new ->
  Z.of_nat (length (calls new)) <= Z.max (limit - got) 0.
Proof. induction 1; simpl in *; lia. Qed.

Lemma loop_events_paced peer_id limit per_call pause got offset new :
  loop_events peer_id limit per_call pause got offset new ->
  no_adjacent_calls new = true.
Proof. induction 1; simpl in *; done. Qed.

Lemma loop_events_sleeps peer_id limit per_call pause got offset new :
  loop_events peer_id limit per_call pause got offset new ->
  sleeps_last pause new.
Proof. unfold sleeps_last. induction 1; repeat constructor; done. Qed.

Lemma loop_events_counts peer_id limit per_call pause got offset new :
  loop_events peer_id limit per_call pause got offset new ->
  Forall (λ c : Z * Z, c.1 = Z.min per_call (limit - (got + (c.2 - offset))))
         (calls new).
Proof.
  induction 1 as [| | |got offset n rest ? ? ? IH]; simpl;
    repeat constructor; simpl; try (f_equal; lia).
  eapply Forall_impl; [exact IH|]. simpl. intros c ->. f_equal. lia.
Qed.

Lemma loop_events_offsets peer_id limit per_call pause got offset new :
  loop_events peer_id limit per_call pause got offset new ->
  Forall (λ c : Z * Z, offset <= c.2) (calls new).
Proof.
  induction 1 as [| | |got offset n rest ? ? ? IH]; simpl;
    repeat constructor; simpl; try lia.
  eapply Forall_impl; [exact IH|]. simpl. intros. lia.
Qed.

(** [per_call] never changes what is asked for: the cap is 200. *)
Lemma per_call_min limit got :
  0 <= got ->
  Z.min (if 200 <? limit then 200 else limit) (limit - got)
  = Z.min 200 (limit - got).
Proof. intros Hgot. case_match eqn:E; [done|]. apply Z.ltb_ge in E. lia. Qed.

Lemma fetch_history_events peer_id limit pause s :
  ∃ new,
    trace (snd (_fetch_history peer_id limit pause s)) = trace s ++ new ∧
    loop_events peer_id limit (if 200 <? limit then 200 else limit) pause 0 0 new.
Proof. apply fetch_loop_events. Qed.

End FetchLoop.

Section FetchClaims.
Import VKParser VKSpec.

Context {W : Type} {vk : VkApiMethod W}.

(** C4. With [limit = 450] (the page cap is the constant 200 of the
    source): when every call answers a full batch, exactly three calls are
    issued, with counts 200, 200, 50 and offsets 0, 200, 400, each followed
    by a sleep, and 450 messages are returned; when the first call answers
    200 messages and the second fewer than 200, the calls are these two and
    there is no third. For every [limit], each call asks for
    [min(200, limit - offset)] messages, where [offset], which the loop
    advances together with [got], is the number fetched so far; and at each
    round of the loop the count is [min(per_call, limit - got)]. *)
Theorem fetch_history_pagination peer_id pause s :
  (full_batches ->
   ∃ fetched w,
     _fetch_history peer_id 450 pause s =
     (Ret fetched,
      mkSt w (trace s ++
              [EvGetHistory peer_id 200 0; EvSleep pause;
               EvGetHistory peer_id 200 200; EvSleep pause;
               EvGetHistory peer_id 50 400; EvSleep pause])) ∧
     len fetched = 450) ∧
  (∀ first second w1 w2,
     messages_getHistory peer_id 200 0 (world s)
       = (Ret (mkHistoryResp (Some first)), w1) ->
     len first = 200 ->
     messages_getHistory peer_id 200 200 w1 = (Ret second, w2) ->
     len (default [] (VKParser.items second)) < 200 ->
     ∃ new,
       trace (snd (_fetch_history peer_id 450 pause s)) = trace s ++ new ∧
       calls new = [(200, 0); (200, 200)]) ∧
  (∀ limit,
     ∃ new,
       trace (snd (_fetch_history peer_id limit pause s)) = trace s ++ new ∧
       Forall (λ c : Z * Z, c.1 = Z.min 200 (limit - c.2) ∧ 0 <= c.2) (calls new)) ∧
  (∀ limit per_call got offset items s0,
     got < limit ->
     ∃ rest,
       trace (snd (fetch_loop peer_id limit per_call pause got offset items s0))
       = trace s0 ++
         EvGetHistory peer_id (Z.min per_call (limit - got)) offset :: rest).
Proof.
  split; [|split; [|split]].
  - intros Hfull. unfold _fetch_history. simpl.
    destruct (Hfull peer_id 200 0 (world s)) as (b1 & w1 & H1 & L1); [lia|].
    destruct (Hfull peer_id 200 200 w1) as (b2 & w2 & H2 & L2); [lia|].
    destruct (Hfull peer_id 50 400 w2) as (b3 & w3 & H3 & L3); [lia|].
    destruct b1 as [|m1 b1]; [done|]. destruct b2 as [|m2 b2]; [done|].
    destruct b3 as [|m3 b3]; [done|].
    erewrite fetch_loop_batch; [|lia|exact H1|done]. cbv zeta.
    rewrite L1. simpl.
    erewrite fetch_loop_batch; [|lia|exact H2|done]. cbv zeta.
    rewrite L2. simpl.
    erewrite fetch_loop_batch; [|lia|exact H3|done]. cbv zeta.
    rewrite L3. simpl.
    rewrite fetch_loop_done by lia.
    eexists _, _. rewrite <- !app_assoc. simpl. split; [done|].
    change (len ((m1 :: b1) ++ (m2 :: b2) ++ m3 :: b3) = 450).
    rewrite !len_app. lia.
  - intros b1 second w1 w2 H1 L1 H2 L2. unfold _fetch_history. simpl.
    destruct b1 as [|m1 b1]; [done|].
    erewrite fetch_loop_batch; [|lia|exact H1|done]. cbv zeta.
    rewrite L1. simpl.
    destruct (default [] (VKParser.items second)) as [|m2 b2] eqn:Hb2.
    + erewrite fetch_loop_empty; [|lia|exact H2|done]. simpl.
      eexists. rewrite <- app_assoc. split; done.
    + erewrite fetch_loop_batch; [|lia|exact H2|done]. cbv zeta.
      replace (len (m2 :: b2) <? 200 `min` (450 - (0 + 200))) with true
        by (symmetry; apply Z.ltb_lt; lia).
      simpl. eexists. rewrite <- app_assoc. split; done.
  - intros limit.
    destruct (fetch_history_events peer_id limit pause s) as (new & Ht & Hev).
    exists new. split; [done|].
    pose proof (loop_events_counts _ _ _ _ _ _ _ Hev) as Hc.
    pose proof (loop_events_offsets _ _ _ _ _ _ _ Hev) as Ho.
    rewrite Forall_forall in Hc, Ho. apply Forall_forall. intros c Hin.
    specialize (Hc c Hin). specialize (Ho c Hin). simpl in *.
    split; [|done]. rewrite Hc.
    replace (0 + (c.2 - 0)) with c.2 by lia. by apply per_call_min.
  - intros limit per_call got offset items s0 Hlt.
    destruct (fetch_loop_events peer_id limit per_call pause got offset items s0)
      as (new & Ht & Hev).
    rewrite Ht. inversion Hev; subst; [done|eauto..].
Qed.

(** C7. [_fetch_history] is a total function: the loop is defined by
    recursion on [limit - got]. A round of the loop either is the last one
    (one call, and a sleep after it unless it raised or came back empty)
    or goes round again with [got] larger by at least one; so a run issues
    at most [max(limit, 0)] calls; and with [limit <= 0] it returns the
    empty list and leaves the state as it was: no call, no sleep. *)
Theorem fetch_history_terminates peer_id limit pause s :
  (∃ new,
     trace (snd (_fetch_history peer_id limit pause s)) = trace s ++ new ∧
     Z.of_nat (length (calls new)) <= Z.max limit 0) ∧
  (limit <= 0 -> _fetch_history peer_id limit pause s = (Ret [], s)) ∧
  (∀ per_call got offset items s0,
     got < limit ->
     let call := EvGetHistory peer_id (Z.min per_call (limit - got)) offset in
     (∃ r s1 tail,
        fetch_loop peer_id limit per_call pause got offset items s0 = (r, s1) ∧
        trace s1 = trace s0 ++ call :: tail ∧
        (tail = [] ∨ tail = [EvSleep pause])) ∨
     (∃ n items' s2,
        1 <= n ∧
        trace s2 = trace s0 ++ [call; EvSleep pause] ∧
        fetch_loop peer_id limit per_call pause got offset items s0 =
        fetch_loop peer_id limit per_call pause (got + n) (offset + n) items' s2)).
Proof.
  split; [|split].
  - destruct (fetch_history_events peer_id limit pause s) as (new & Ht & Hev).
    exists new. split; [done|].
    apply loop_events_calls_bound in Hev. lia.
  - intros Hle. unfold _fetch_history. apply fetch_loop_done. lia.
  - intros per_call got offset items s0 Hlt. cbv zeta.
    destruct (messages_getHistory peer_id (Z.min per_call (limit - got)) offset
                (world s0)) as [[resp|e] w] eqn:Hcall.
    + destruct (default [] (VKParser.items resp)) as [|m b] eqn:Hb.
      * left. erewrite fetch_loop_empty by done. eexists _, _, []. eauto.
      * erewrite fetch_loop_batch by done. cbv zeta. case_match.
        -- left. eexists _, _, [EvSleep pause]. eauto.
        -- right. pose proof (len_cons_pos m b).
           exists (len (m :: b)), (items ++ m :: b). eexists.
           split; [lia|]. split; [|reflexivity]. done.
    + left. erewrite fetch_loop_raise by done. eexists _, _, []. eauto.
Qed.

(** C8. In a run of the loop no history call is directly followed by
    another one, and every sleep lasts [pause]. A call that answers a
    batch that is not empty is directly followed by a sleep, also when the
    batch is short and the loop ends there; a call that answers an empty
    batch is the last event of the run. *)
Theorem fetch_loop_sleeps peer_id limit per_call pause got offset items s :
  (∃ new,
     trace (snd (fetch_loop peer_id limit per_call pause got offset items s))
       = trace s ++ new ∧
     no_adjacent_calls new = true ∧ sleeps_last pause new) ∧
  (∀ resp w,
     got < limit ->
     messages_getHistory peer_id (Z.min per_call (limit - got)) offset (world s)
       = (Ret resp, w) ->
     let call := EvGetHistory peer_id (Z.min per_call (limit - got)) offset in
     let batch := default [] (VKParser.items resp) in
     (batch ≠ [] ->
      ∃ rest,
        trace (snd (fetch_loop peer_id limit per_call pause got offset items s))
          = trace s ++ call :: EvSleep pause :: rest ∧
        (len batch < Z.min per_call (limit - got) -> rest = [])) ∧
     (batch = [] ->
      fetch_loop peer_id limit per_call pause got offset items s
        = (Ret items, mkSt w (trace s ++ [call])))).
Proof.
  split.
  - destruct (fetch_loop_events peer_id limit per_call pause got offset items s)
      as (new & Ht & Hev).
    exists new. eauto using loop_events_paced, loop_events_sleeps.
  - intros resp w Hlt Hcall. cbv zeta. split.
    + destruct (default [] (VKParser.items resp)) as [|m b] eqn:Hb; [done|].
      intros _. erewrite fetch_loop_batch by done. cbv zeta.
      case_match eqn:Hshort.
      * exists []. simpl. split; [done|]. done.
      * destruct (fetch_loop_events peer_id limit per_call pause
                    (got + len (m :: b)) (offset + len (m :: b))
                    (items ++ m :: b)
                    (mkSt w (trace s ++
                       [EvGetHistory peer_id (Z.min per_call (limit - got)) offset;
                        EvSleep pause])))
          as (rest & Ht & _).
        exists rest. rewrite Ht. simpl. rewrite <- app_assoc. split; [done|].
        apply Z.ltb_ge in Hshort. lia.
    + intros Hb. by apply fetch_loop_empty with (resp := resp).
Qed.

End FetchClaims.

(** *** The loop on the test servers *)

Lemma endless_full_batches : VKSpec.full_batches (vk := Doubles.endless).
Proof.
  intros peer_id count offset w Hcount. eexists _, _. split; [reflexivity|].
  unfold VKParser.len. rewrite length_replicate. lia.
Qed.

Example fetch_history_second_batch_short :
  VKSpec.calls
    (VKParser.trace
       (snd (VKParser._fetch_history (vk := Doubles.server 300) 7 450
               VKParser.default_pause Doubles.start)))
  = [(200, 0); (200, 200)].
Proof. vm_compute. reflexivity. Qed.

Example fetch_history_exhausted :
  VKParser.trace
    (snd (VKParser._fetch_history (vk := Doubles.server 200) 7 450
            VKParser.default_pause Doubles.start))
  = [VKParser.EvGetHistory 7 200 0; VKParser.EvSleep VKParser.default_pause;
     VKParser.EvGetHistory 7 200 200].
Proof. vm_compute. reflexivity. Qed.

Lemma fetch_history_pagination_witness :
  (∃ fetched w,
     VKParser._fetch_history (vk := Doubles.endless) 7 450
       VKParser.default_pause Doubles.start =
     (Ret fetched,
      VKParser.mkSt w
        (VKParser.trace Doubles.start ++
         [VKParser.EvGetHistory 7 200 0; VKParser.EvSleep VKParser.default_pause;
          VKParser.EvGetHistory 7 200 200; VKParser.EvSleep VKParser.default_pause;
          VKParser.EvGetHistory 7 50 400; VKParser.EvSleep VKParser.default_pause])) ∧
     VKParser.len fetched = 450) ∧
  (∃ new,
     VKParser.trace
       (snd (VKParser._fetch_history (vk := Doubles.server 300) 7 450
               VKParser.default_pause Doubles.start))
     = VKParser.trace Doubles.start ++ new ∧
     VKSpec.calls new = [(200, 0); (200, 200)]).
Proof.
  split.
  - apply (proj1 (fetch_history_pagination (vk := Doubles.endless) 7
                    VKParser.default_pause Doubles.start)).
    exact endless_full_batches.
  - eapply (proj1 (proj2 (fetch_history_pagination (vk := Doubles.server 300) 7
                            VKParser.default_pause Doubles.start))).
    + vm_compute. reflexivity.
    + vm_compute. reflexivity.
    + vm_compute. reflexivity.
    + vm_compute. reflexivity.
Defined.

Lemma fetch_history_terminates_witness :
  VKParser._fetch_history (vk := Doubles.server 300) 7 0
    VKParser.default_pause Doubles.start = (Ret [], Doubles.start) ∧
  VKParser._fetch_history (vk := Doubles.server 300) 7 (-3)
    VKParser.default_pause Doubles.start = (Ret [], Doubles.start).
Proof.
  split.
  - apply (proj1 (proj2 (fetch_history_terminates (vk := Doubles.server 300) 7 0
                           VKParser.default_pause Doubles.start))). lia.
  - apply (proj1 (proj2 (fetch_history_terminates (vk := Doubles.server 300) 7 (-3)
                           VKParser.default_pause Doubles.start))). lia.
Defined.

Lemma fetch_loop_sleeps_witness :
  ∃ rest,
    VKParser.trace
      (snd (VKParser.fetch_loop (vk := Doubles.server 300) 7 450 200
              VKParser.default_pause 200 200 [] Doubles.start))
    = VKParser.trace Doubles.start ++
      VKParser.EvGetHistory 7 (Z.min 200 (450 - 200)) 200
        :: VKParser.EvSleep VKParser.default_pause :: rest ∧
    (VKParser.len
       (default [] (VKParser.items
          (VKParser.mkHistoryResp
             (Some (take 200 (drop 200 (Doubles.dialog 300)))))))
     < Z.min 200 (450 - 200) -> rest = []).
Proof.
  eapply (proj1 (proj2 (fetch_loop_sleeps (vk := Doubles.server 300) 7 450 200
                          VKParser.default_pause 200 200 [] Doubles.start)
                  (VKParser.mkHistoryResp
                     (Some (take 200 (drop 200 (Doubles.dialog 300))))) tt
                  ltac:(lia) eq_refl)).
  vm_compute. discriminate.
Defined.

(** ** Peer identifiers *)

Section Peers.
Import VKParser VKSpec.

Context {W : Type} {vk : VkApiMethod W}.

(** [_resolve_screen_name] makes one remote call, never raises, and
    returns the id read off the answer. *)
Lemma resolve_screen_name_spec name s answer w :
  utils_resolveScreenName (screen_name_of name) (world s) = (answer, w) ->
  _resolve_screen_name name s =
  (Ret (resolution answer),
   mkSt w (trace s ++ [EvResolveScreenName (screen_name_of name)])).
Proof.
  intros Hcall.
  unfold _resolve_screen_name, try_except, bind, resolveScreenName.
  fold (screen_name_of name). rewrite Hcall.
  destruct answer as [[[[t|] [n|]]|]|e]; simpl; try reflexivity;
    destruct (String.eqb t "user"); try reflexivity;
    destruct (String.eqb t "group"); reflexivity.
Qed.

Lemma resolve_screen_name_returns name s :
  ∃ r s', _resolve_screen_name name s = (Ret r, s').
Proof.
  destruct (utils_resolveScreenName (screen_name_of name) (world s))
    as [answer w] eqn:Hcall.
  erewrite resolve_screen_name_spec by done. eauto.
Qed.

(** The three ways a round of the loop of [_normalize_peer_ids] goes. *)
Lemma normalize_loop_int n rest out s :
  normalize_loop (PInt n :: rest) out s = normalize_loop rest (out ++ [n]) s.
Proof. reflexivity. Qed.

Lemma normalize_loop_accept pid rest out s r s1 :
  _resolve_screen_name pid s = (Ret (Some r), s1) -> 0 < r ->
  normalize_loop (PStr pid :: rest) out s = normalize_loop rest (out ++ [r]) s1.
Proof.
  intros Hres Hpos. simpl. unfold bind. rewrite Hres.
  by replace (0 <? r) with true by (symmetry; by apply Z.ltb_lt).
Qed.

Lemma normalize_loop_reject pid rest out s r s1 :
  _resolve_screen_name pid s = (Ret r, s1) ->
  (r = None -> normalize_loop (PStr pid :: rest) out s = (Raise (unrecognised pid), s1)) ∧
  (∀ n, r = Some n -> n <= 0 ->
        normalize_loop (PStr pid :: rest) out s = (Raise (is_community pid), s1)).
Proof.
  intros Hres. split.
  - intros ->. simpl. unfold bind. by rewrite Hres.
  - intros n -> Hn. simpl. unfold bind. rewrite Hres.
    by replace (0 <? n) with false by (symmetry; by apply Z.ltb_ge).
Qed.

Lemma normalize_loop_app pre post out s :
  normalize_loop (pre ++ post) out s =
  match normalize_loop pre out s with
  | (Ret out', s') => normalize_loop post out' s'
  | (Raise e, s') => (Raise e, s')
  end.
Proof.
  revert out s. induction pre as [|[n|pid] pre IH]; intros out s; simpl; [done|done|].
  unfold bind. destruct (_resolve_screen_name pid s) as [[[r|]|e] s1]; try done.
  case_match; done.
Qed.

Lemma normalize_loop_ints ns out s :
  normalize_loop (map PInt ns) out s = (Ret (out ++ ns), s).
Proof.
  revert out. induction ns as [|n ns IH]; intros out; simpl.
  - by rewrite app_nil_r.
  - by rewrite IH, <- app_assoc.
Qed.

(** A list that is returned has one accepted id for each input. *)
Lemma normalize_loop_ret peer_ids out s res s' :
  normalize_loop peer_ids out s = (Ret res, s') ->
  ∃ tail, res = out ++ tail ∧ Forall2 accepted peer_ids tail.
Proof.
  revert out s. induction peer_ids as [|[n|pid] rest IH]; intros out s; simpl.
  - intros [= <- <-]. exists []. by rewrite app_nil_r.
  - intros Hrun. apply IH in Hrun as (tail & -> & Hall).
    exists (n :: tail). rewrite <- app_assoc. split; [done|]. by constructor.
  - unfold bind. destruct (_resolve_screen_name pid s) as [[[r|]|e] s1] eqn:Hres;
      try done.
    case_match eqn:Hpos; [|done]. apply Z.ltb_lt in Hpos.
    intros Hrun. apply IH in Hrun as (tail & -> & Hall).
    exists (r :: tail). rewrite <- app_assoc. split; [done|].
    constructor; [|done]. simpl. eauto.
Qed.

(** The errors of the source are the two errors with their messages. *)
Lemma unrecognised_message pid : unrecognised pid = not_recognised_error pid.
Proof. reflexivity. Qed.

Lemma is_community_message pid : is_community pid = community_error pid.
Proof. reflexivity. Qed.

Lemma not_recognised_names_input pid : names_input (not_recognised_error pid) pid.
Proof.
  split; [reflexivity|].
  by exists "Не удалось распознать peer_id из ",
            ". Для бесед передавайте целочисленный peer_id.".
Qed.

Lemma community_names_input pid : names_input (community_error pid) pid.
Proof.
  split; [reflexivity|].
  by exists "Экранное имя ",
            " указывает на сообщество. Передайте integer peer_id явным образом или используйте диалоги из messages.getConversations.".
Qed.

Lemma rejected_names_input pid e : rejected pid e -> names_input e pid.
Proof.
  intros [[-> _]|[-> _]];
    [apply not_recognised_names_input|apply community_names_input].
Qed.

(** An error that is raised is the error for one of the input strings. *)
Lemma normalize_loop_raise peer_ids out s e s' :
  normalize_loop peer_ids out s = (Raise e, s') ->
  ∃ pid, PStr pid ∈ peer_ids ∧ rejected pid e.
Proof.
  revert out s. induction peer_ids as [|[n|pid] rest IH]; intros out s; simpl.
  - done.
  - intros Hrun. apply IH in Hrun as (pid & Hin & Hrej).
    exists pid. split; [apply elem_of_cons; by right|done].
  - unfold bind. destruct (_resolve_screen_name pid s) as [[[r|]|e0] s1] eqn:Hres.
    + case_match eqn:Hpos.
      * intros Hrun. apply IH in Hrun as (pid' & Hin & Hrej).
        exists pid'. split; [apply elem_of_cons; by right|done].
      * apply Z.ltb_ge in Hpos. intros [= <- <-].
        exists pid. split; [apply elem_of_cons; by left|]. right. eauto 10.
    + intros [= <- <-]. exists pid. split; [apply elem_of_cons; by left|]. left. eauto.
    + destruct (resolve_screen_name_returns pid s) as (r & s2 & Hret). congruence.
Qed.

(** C5. [_normalize_peer_ids]: a list that is returned has, for each
    input in order, the integer itself or the positive id the string
    resolved to; an error that is raised is the error of one of the input
    strings, one that did not resolve or resolved to an id that is not
    positive, and it is a [ValueError] whose message has that string in
    it, between quotes; the first such string ends the call with its
    error, with the message of the source, whatever follows it, so that no
    list is returned, while a string that resolves to a positive id adds
    that id and the loop goes on; and a string resolves to the id of the
    remote answer, negated for a community, and to nothing when the remote
    answer is empty, incomplete, of another type, or an error. *)
Theorem normalize_peer_ids_fail_fast peer_ids s :
  (∀ out s', _normalize_peer_ids peer_ids s = (Ret out, s') ->
             Forall2 accepted peer_ids out) ∧
  (∀ e s', _normalize_peer_ids peer_ids s = (Raise e, s') ->
           ∃ pid, PStr pid ∈ peer_ids ∧ rejected pid e ∧ names_input e pid) ∧
  (∀ pre pid post out s1 r s2,
     peer_ids = pre ++ PStr pid :: post ->
     _normalize_peer_ids pre s = (Ret out, s1) ->
     _resolve_screen_name pid s1 = (Ret r, s2) ->
     (r = None ->
      _normalize_peer_ids peer_ids s
      = (Raise (Exc "ValueError"
                  ("Не удалось распознать peer_id из '" +:+ pid +:+
                   "'. Для бесед передавайте целочисленный peer_id.")), s2)) ∧
     (∀ n, r = Some n -> n <= 0 ->
           _normalize_peer_ids peer_ids s
           = (Raise (Exc "ValueError"
                       ("Экранное имя '" +:+ pid +:+
                        "' указывает на сообщество. Передайте integer peer_id явным образом или используйте диалоги из messages.getConversations.")),
              s2)) ∧
     (∀ n, r = Some n -> 0 < n ->
           _normalize_peer_ids peer_ids s = normalize_loop post (out ++ [n]) s2)) ∧
  (∀ name answer w,
     utils_resolveScreenName (screen_name_of name) (world s) = (answer, w) ->
     _resolve_screen_name name s =
     (Ret (resolution answer),
      mkSt w (trace s ++ [EvResolveScreenName (screen_name_of name)]))).
Proof.
  unfold _normalize_peer_ids. split; [|split; [|split]].
  - intros out s' Hrun. apply normalize_loop_ret in Hrun as (tail & -> & Hall).
    done.
  - intros e s' Hrun. apply normalize_loop_raise in Hrun as (pid & Hin & Hrej).
    exists pid. eauto using rejected_names_input.
  - intros pre pid post out s1 r s2 -> Hpre Hres.
    rewrite normalize_loop_app, Hpre.
    destruct (normalize_loop_reject pid post out s1 r s2 Hres) as [Hnone Hneg].
    split; [done|]. split; [done|].
    intros n -> Hpos. by apply normalize_loop_accept.
  - intros name answer w. apply resolve_screen_name_spec.
Qed.

(** C10. A list of integers is returned as it is, whatever the integers:
    no remote call is made and the state is untouched. A string that
    resolves to a community is rejected, although the same negative id
    given as an integer is returned. *)
Theorem normalize_peer_ids_integers_unchecked (ns : list Z) s :
  _normalize_peer_ids (map PInt ns) s = (Ret ns, s) ∧
  (∀ pid n w,
     utils_resolveScreenName (screen_name_of pid) (world s)
       = (Ret (Some (mkResolveData (Some "group") (Some n))), w) ->
     0 <= n ->
     fst (_normalize_peer_ids [PStr pid] s) = Raise (is_community pid) ∧
     _normalize_peer_ids [PInt (- n)] s = (Ret [- n], s)).
Proof.
  split.
  - unfold _normalize_peer_ids. by rewrite normalize_loop_ints.
  - intros pid n w Hcall Hn. split; [|done].
    unfold _normalize_peer_ids.
    pose proof (resolve_screen_name_spec pid s _ w Hcall) as Hres. simpl in Hres.
    destruct (normalize_loop_reject pid [] [] s _ _ Hres) as [_ Hrej].
    rewrite (Hrej (- n)); [done|done|lia].
Qed.

End Peers.

(** ** Errors of the remote side *)

Section RemoteErrors.
Import VKParser VKSpec.

Context {W : Type} {vk : VkApiMethod W}.

(** C6, as the code has it. An error of the history endpoint, in whatever
    round of the loop, comes out of [_fetch_history] and of the loop over
    the peers as it is, the failed call being the last event: it is not
    repeated and no sleep follows; and whatever [_fetch_history] raises is
    what the endpoint raised in its last call. An error of the
    name-resolution endpoint is caught in [_resolve_screen_name], which
    returns nothing after that one call, and [_normalize_peer_ids] raises
    its own [ValueError], the one of a name that is not recognised, whose
    message has the input in it. *)
Theorem history_errors_propagate_resolution_errors_are_caught
    peer_id limit pause s :
  (∀ per_call got offset items s0 e w,
     got < limit ->
     messages_getHistory peer_id (Z.min per_call (limit - got)) offset (world s0)
       = (Raise e, w) ->
     fetch_loop peer_id limit per_call pause got offset items s0 =
     (Raise e,
      mkSt w (trace s0 ++
              [EvGetHistory peer_id (Z.min per_call (limit - got)) offset]))) ∧
  (∀ e s',
     _fetch_history peer_id limit pause s = (Raise e, s') ->
     (∀ rest docs,
        pause = default_pause ->
        fetch_peers (peer_id :: rest) limit docs s = (Raise e, s')) ∧
     ∃ before count offset w,
       trace s' = before ++ [EvGetHistory peer_id count offset] ∧
       messages_getHistory peer_id count offset w = (Raise e, world s')) ∧
  (∀ name e w,
     utils_resolveScreenName (screen_name_of name) (world s) = (Raise e, w) ->
     let s1 := mkSt w (trace s ++ [EvResolveScreenName (screen_name_of name)]) in
     _resolve_screen_name name s = (Ret None, s1) ∧
     names_input (not_recognised_error name) name ∧
     ∀ rest, _normalize_peer_ids (PStr name :: rest) s
             = (Raise (Exc "ValueError"
                         ("Не удалось распознать peer_id из '" +:+ name +:+
                          "'. Для бесед передавайте целочисленный peer_id.")),
                s1)).
Proof.
  split; [|split].
  - intros. by apply fetch_loop_raise.
  - intros e s' Hrun. split.
    + intros rest docs ->. simpl. unfold bind. by rewrite Hrun.
    + unfold _fetch_history in Hrun. by apply fetch_loop_raised in Hrun.
  - intros name e w Hcall. cbv zeta.
    pose proof (resolve_screen_name_spec name s _ w Hcall) as Hres.
    simpl in Hres. split; [done|]. split; [apply not_recognised_names_input|].
    intros rest. unfold _normalize_peer_ids.
    by apply (normalize_loop_reject name rest [] s None).
Qed.

End RemoteErrors.

(** *** Peers and errors on the test servers *)

Example normalize_peers_mixed :
  fst (VKParser._normalize_peer_ids (vk := Doubles.server 300)
         [VKParser.PInt 123; VKParser.PStr " https://vk.com/durov"; VKParser.PInt (-7)]
         Doubles.start)
  = Ret [123; 1; -7].
Proof. vm_compute. reflexivity. Qed.

Example normalize_peers_community :
  fst (VKParser._normalize_peer_ids (vk := Doubles.server 300)
         [VKParser.PInt 123; VKParser.PStr "club"; VKParser.PStr "durov"]
         Doubles.start)
  = Raise (Exc "ValueError"
             "Экранное имя 'club' указывает на сообщество. Передайте integer peer_id явным образом или используйте диалоги из messages.getConversations.").
Proof. vm_compute. reflexivity. Qed.

Example strip_white_space :
  Str.strip (Doubles.no_break_space +:+ " durov" +:+ Doubles.ideographic_space)
  = "durov" ∧
  Str.strip (Doubles.zero_width_space +:+ "durov ")
  = Doubles.zero_width_space +:+ "durov" ∧
  Str.strip (Doubles.no_break_space +:+ Doubles.ideographic_space) = "".
Proof. repeat split. Qed.

Example normalize_peers_no_break_space :
  VKParser._normalize_peer_ids (vk := Doubles.server 300)
    [VKParser.PStr (Doubles.no_break_space +:+ "durov" +:+ Doubles.no_break_space)]
    Doubles.start
  = (Ret [1], VKParser.mkSt tt [VKParser.EvResolveScreenName "durov"]).
Proof. vm_compute. reflexivity. Qed.

Example normalize_peers_unknown :
  VKParser._normalize_peer_ids (vk := Doubles.server 300)
    [VKParser.PStr "nobody"; VKParser.PStr "durov"] Doubles.start
  = (Raise (Exc "ValueError"
              "Не удалось распознать peer_id из 'nobody'. Для бесед передавайте целочисленный peer_id."),
     VKParser.mkSt tt [VKParser.EvResolveScreenName "nobody"]).
Proof. vm_compute. reflexivity. Qed.

Lemma normalize_peer_ids_fail_fast_witness :
  Forall2 (VKSpec.accepted (vk := Doubles.server 300))
    [VKParser.PInt 123; VKParser.PStr "https://vk.com/durov"] [123; 1] ∧
  (∃ pid,
     VKParser.PStr pid ∈ [VKParser.PInt 123; VKParser.PStr "club"] ∧
     VKSpec.rejected (vk := Doubles.server 300) pid (VKSpec.community_error "club") ∧
     VKSpec.names_input (VKSpec.community_error "club") pid) ∧
  VKParser._normalize_peer_ids (vk := Doubles.server 300)
    [VKParser.PInt 123; VKParser.PStr "nobody"; VKParser.PStr "durov"] Doubles.start
  = (Raise (Exc "ValueError"
              ("Не удалось распознать peer_id из '" +:+ "nobody" +:+
               "'. Для бесед передавайте целочисленный peer_id.")),
     VKParser.mkSt tt [VKParser.EvResolveScreenName "nobody"]).
Proof.
  split; [|split].
  - eapply (proj1 (normalize_peer_ids_fail_fast (vk := Doubles.server 300)
                     [VKParser.PInt 123; VKParser.PStr "https://vk.com/durov"]
                     Doubles.start)).
    vm_compute. reflexivity.
  - eapply (proj1 (proj2 (normalize_peer_ids_fail_fast (vk := Doubles.server 300)
                            [VKParser.PInt 123; VKParser.PStr "club"]
                            Doubles.start))).
    vm_compute. reflexivity.
  - eapply (proj1 (proj1 (proj2 (proj2
              (normalize_peer_ids_fail_fast (vk := Doubles.server 300)
                 [VKParser.PInt 123; VKParser.PStr "nobody"; VKParser.PStr "durov"]
                 Doubles.start)))
              [VKParser.PInt 123] "nobody" [VKParser.PStr "durov"]
              [123] Doubles.start None _ eq_refl eq_refl eq_refl)).
    reflexivity.
Defined.

Lemma normalize_peer_ids_integers_unchecked_witness :
  fst (VKParser._normalize_peer_ids (vk := Doubles.server 300)
         [VKParser.PStr "club"] Doubles.start)
  = Raise (VKParser.is_community "club") ∧
  VKParser._normalize_peer_ids (vk := Doubles.server 300)
    [VKParser.PInt (- 5)] Doubles.start
  = (Ret [- 5], Doubles.start).
Proof.
  apply (proj2 (normalize_peer_ids_integers_unchecked (vk := Doubles.server 300)
                  [0; -5; 2000000123] Doubles.start) "club" 5 tt).
  - reflexivity.
  - lia.
Defined.

(** C6, as the specification states it for the name-resolution endpoint,
    fails:
    on a server whose calls raise, [_resolve_screen_name] returns nothing
    where the specification has it raise the error of the server. *)
Lemma offline_resolution_error_is_swallowed : ¬ VKSpec.resolution_errors_propagate.
Proof.
  intros Hspec.
  specialize (Hspec unit Doubles.offline "durov" Doubles.start
                Doubles.api_error tt eq_refl).
  vm_compute in Hspec. discriminate Hspec.
Qed.

Example offline_resolution :
  VKParser._normalize_peer_ids (vk := Doubles.offline)
    [VKParser.PStr "durov"] Doubles.start
  = (Raise (Exc "ValueError"
              "Не удалось распознать peer_id из 'durov'. Для бесед передавайте целочисленный peer_id."),
     VKParser.mkSt tt [VKParser.EvResolveScreenName "durov"]).
Proof. vm_compute. reflexivity. Qed.

Lemma history_errors_propagate_resolution_errors_are_caught_witness :
  VKParser.fetch_loop (vk := Doubles.offline) 7 450 200 VKParser.default_pause
    0 0 [] Doubles.start
  = (Raise Doubles.api_error,
     VKParser.mkSt tt (VKParser.trace Doubles.start ++
                       [VKParser.EvGetHistory 7 (Z.min 200 (450 - 0)) 0])) ∧
  VKParser._resolve_screen_name (vk := Doubles.offline) "durov" Doubles.start
  = (Ret None,
     VKParser.mkSt tt (VKParser.trace Doubles.start ++
                       [VKParser.EvResolveScreenName (VKSpec.screen_name_of "durov")])).
Proof.
  split.
  - apply (proj1 (history_errors_propagate_resolution_errors_are_caught
                    (vk := Doubles.offline) 7 450 VKParser.default_pause
                    Doubles.start)).
    + lia.
    + reflexivity.
  - apply (proj2 (proj2 (history_errors_propagate_resolution_errors_are_caught
                           (vk := Doubles.offline) 7 450 VKParser.default_pause
                           Doubles.start))
             "durov" Doubles.api_error tt).
    reflexivity.
Defined.

(** ** The Documents of the chat and of the social-API paths *)

Section Normalizer.
Import DocumentsParser DocumentSpec TelegramParser VKParser.

Context {T : Type} (iter_messages : string -> Z -> M T (list Message)).
Context {W : Type} {vk : VkApiMethod W}.

Lemma message_document_invariant chat msg :
  document_invariant (message_document chat msg) ∧
  page_content (message_document chat msg) = default "" (text msg).
Proof.
  split; [|by destruct msg as [? [?|] ? ? ?]].
  unfold document_invariant, has_key, message_document. simpl.
  split; [|by simplify_map_eq].
  intros Hempty. apply (f_equal (lookup "type")) in Hempty.
  by simplify_map_eq.
Qed.

Lemma vk_document_shape msg peer_id :
  let d := _vk_message_to_document msg peer_id in
  page_content d = default "" (msg_text msg) ∧
  metadata d ≠ ∅ ∧
  dom (metadata d) =
    ({[ "platform"; "peer_id"; "message_id"; "date"; "from_id"; "attachments";
        "has_forward" ]} : gset string) ∧
  has_key "source" d = false ∧ has_key "type" d = false.
Proof.
  cbv zeta. unfold _vk_message_to_document, has_key. simpl.
  split; [|split; [|split; [|split]]].
  - destruct (msg_text msg) as [t|]; [|done]. simpl.
    by destruct (String.eqb_spec t "").
  - intros Hempty. apply (f_equal (lookup "platform")) in Hempty.
    by simplify_map_eq.
  - rewrite !dom_insert_L, dom_empty_L. set_solver.
  - by simplify_map_eq.
  - by simplify_map_eq.
Qed.

(** The [async for] over [tqdm(...)] raises before the client is asked
    for a message: only an empty list of chats gets past the loop. *)
Lemma collect_outcome chats messages_limit docs w :
  collect iter_messages chats messages_limit docs w
  = match chats with
    | [] => (Ret docs, w)
    | _ :: _ =>
        (Raise (Exc "TypeError"
                  "'async for' requires an object with __aiter__ method, got tqdm"),
         w)
    end.
Proof. by destruct chats. Qed.

Lemma fetch_peers_documents peers limit docs s res s' :
  fetch_peers peers limit docs s = (Ret res, s') ->
  Forall (λ d, ∃ msg pid, d = _vk_message_to_document msg pid) docs ->
  Forall (λ d, ∃ msg pid, d = _vk_message_to_document msg pid) res.
Proof.
  revert docs s. induction peers as [|pid rest IH]; intros docs s; simpl.
  - by intros [= <- <-].
  - unfold bind. destruct (_fetch_history pid limit default_pause s) as [[raw|e] s1];
      [|done].
    intros Hrun Hdocs. eapply IH; [exact Hrun|].
    apply Forall_app. split; [done|].
    apply Forall_forall. intros d Hd. apply list_elem_of_fmap in Hd as (msg & -> & _).
    eauto.
Qed.

(** C1, as the code has it. Every Document that [get_messages_from_vk]
    returns is built by [_vk_message_to_document]: its content is the text
    of the message, the empty string when there is none, and its metadata
    is not empty and has exactly the keys [platform], [peer_id],
    [message_id], [date], [from_id], [attachments] and [has_forward]:
    neither [source] nor [type]. [get_messages_from_chats] returns no
    Document at all: when it returns, the list of chats is empty and so is
    the result, and for every other list of chats it raises the [TypeError]
    of an [async for] over a [tqdm] object, whatever the client. The
    Document that the body of its loop builds for a message has the text of
    the message as its content, the empty string when there is none, and a
    metadata that is not empty and has the keys [source] and [type]. *)
Theorem emitted_documents peer_ids limit_per_dialog s vk_docs s' :
  get_messages_from_vk peer_ids limit_per_dialog s = (Ret vk_docs, s') ->
  Forall (λ d, ∃ msg peer_id,
               d = _vk_message_to_document msg peer_id ∧
               page_content d = default "" (msg_text msg) ∧
               metadata d ≠ ∅ ∧
               dom (metadata d) =
                 ({[ "platform"; "peer_id"; "message_id"; "date"; "from_id";
                     "attachments"; "has_forward" ]} : gset string) ∧
               has_key "source" d = false ∧ has_key "type" d = false)
         vk_docs ∧
  (∀ chats messages_limit w docs w',
     get_messages_from_chats iter_messages chats messages_limit w = (Ret docs, w') ->
     chats = [] ∧ docs = [] ∧ w' = w) ∧
  (∀ chat rest messages_limit w,
     get_messages_from_chats iter_messages (chat :: rest) messages_limit w
     = (Raise (Exc "TypeError"
                 "'async for' requires an object with __aiter__ method, got tqdm"),
        w)) ∧
  (∀ chat msg,
     page_content (message_document chat msg) = default "" (text msg) ∧
     document_invariant (message_document chat msg)).
Proof.
  intros Hvk. split; [|split; [|split]].
  - revert Hvk. unfold get_messages_from_vk, bind.
    destruct (_normalize_peer_ids peer_ids s) as [[peers|e] s1]; [|done].
    intros Hvk. apply fetch_peers_documents in Hvk; [|constructor].
    eapply Forall_impl; [exact Hvk|]. simpl.
    intros d (msg & pid & ->). exists msg, pid.
    split; [done|]. apply vk_document_shape.
  - intros chats messages_limit w docs w'. unfold get_messages_from_chats.
    rewrite collect_outcome. destruct chats as [|chat rest]; [|done].
    by intros [= <- <-].
  - intros chat rest messages_limit w. unfold get_messages_from_chats.
    by rewrite collect_outcome.
  - intros chat msg. destruct (message_document_invariant chat msg). done.
Qed.

End Normalizer.

(** C1, as the specification states it, fails on the social-API path: the
    Document of a VK message has no [source] key. *)
Lemma vk_document_breaks_invariant :
  ¬ DocumentSpec.document_invariant
      (VKParser._vk_message_to_document
         (VKParser.mkVKMessage (Some 1) (Some 1738749600) (Some 42) (Some "hi")
            None None) 42).
Proof. intros (_ & Hsource & _). vm_compute in Hsource. discriminate Hsource. Qed.

(** The chat path on a client that has two messages for every chat. *)
Example telegram_documents :
  TelegramParser.get_messages_from_chats Doubles.channel ["@news"] 1000 tt
  = (Raise (Exc "TypeError"
              "'async for' requires an object with __aiter__ method, got tqdm"),
     tt) ∧
  TelegramParser.get_messages_from_chats Doubles.channel [] 1000 tt = (Ret [], tt).
Proof. split; vm_compute; reflexivity. Qed.

Lemma emitted_documents_witness :
  Forall (λ d, ∃ msg peer_id,
               d = VKParser._vk_message_to_document msg peer_id ∧
               DocumentsParser.page_content d = default "" (VKParser.msg_text msg) ∧
               DocumentsParser.metadata d ≠ ∅ ∧
               dom (DocumentsParser.metadata d) =
                 ({[ "platform"; "peer_id"; "message_id"; "date"; "from_id";
                     "attachments"; "has_forward" ]} : gset string) ∧
               DocumentSpec.has_key "source" d = false ∧
               DocumentSpec.has_key "type" d = false)
         (RunSpec.dialog_documents [7; 1] [Doubles.dialog 2; Doubles.dialog 2]).
Proof.
  apply (emitted_documents Doubles.channel (vk := Doubles.server 300)
           [VKParser.PInt 7; VKParser.PStr "durov"] 2 Doubles.start
           (RunSpec.dialog_documents [7; 1] [Doubles.dialog 2; Doubles.dialog 2])
           (snd (VKParser.get_messages_from_vk (vk := Doubles.server 300)
                   [VKParser.PInt 7; VKParser.PStr "durov"] 2 Doubles.start))).
  vm_compute. reflexivity.
Defined.

(** * Further properties *)

(** ** What the fetch loop returns *)

Section FetchResults.
Import VKParser VKSpec RunSpec.

Context {W : Type} {vk : VkApiMethod W}.

Lemma len_take_drop (history : list VKMessage) count got :
  0 <= count -> 0 <= got ->
  len (take (Z.to_nat count) (drop (Z.to_nat got) history))
  = Z.min count (Z.max (len history - got) 0).
Proof.
  intros Hc Hg. unfold len. rewrite length_take, length_drop. lia.
Qed.

(** Against a remote side that serves a fixed history, the loop started
    on the first [got] messages returns the first [limit]. *)
Lemma fetch_loop_serves history peer_id limit per_call pause got s :
  serves history ->
  (0 < limit -> 1 <= per_call) ->
  0 <= got <= Z.max limit 0 -> got <= len (history peer_id) ->
  fst (fetch_loop peer_id limit per_call pause
         got got (take (Z.to_nat got) (history peer_id)) s)
  = Ret (take (Z.to_nat limit) (history peer_id)).
Proof.
  intros Hserves Hper.
  remember (Z.to_nat (limit - got)) as k eqn:Hk.
  revert got s Hk.
  induction (lt_wf k) as [k _ IH]; intros got s -> Hgot Hlen.
  destruct (decide (got < limit)) as [Hlt|Hge].
  2:{ rewrite fetch_loop_done by done. simpl. do 2 f_equal. lia. }
  assert (1 <= Z.min per_call (limit - got)) as Hcount by lia.
  destruct (Hserves peer_id (Z.min per_call (limit - got)) got (world s))
    as (w' & Hcall); [lia|lia|].
  pose proof (len_take_drop (history peer_id) (Z.min per_call (limit - got)) got
                ltac:(lia) ltac:(lia)) as Hbatch.
  destruct (take (Z.to_nat (Z.min per_call (limit - got)))
              (drop (Z.to_nat got) (history peer_id))) as [|m b] eqn:Hb.
  - erewrite fetch_loop_empty; [|done|exact Hcall|done]. simpl.
    change (len []) with 0 in Hbatch.
    rewrite !take_ge; [done|unfold len in *; lia..].
  - erewrite fetch_loop_batch; [|done|exact Hcall|done]. cbv zeta.
    pose proof (len_cons_pos m b) as Hpos.
    assert (take (Z.to_nat got) (history peer_id) ++ m :: b
            = take (Z.to_nat (got + Z.min per_call (limit - got))) (history peer_id))
      as Hitems.
    { rewrite <- Hb, take_take_drop. f_equal. lia. }
    rewrite Hitems.
    destruct (len (m :: b) <? Z.min per_call (limit - got)) eqn:Hshort; simpl.
    + apply Z.ltb_lt in Hshort.
      rewrite !take_ge; [done|unfold len in *; lia..].
    + apply Z.ltb_ge in Hshort.
      assert (len (m :: b) = Z.min per_call (limit - got)) as -> by lia.
      eapply IH; [|done|lia|lia]. lia.
Qed.

(** X1. Against a remote side that keeps a fixed history for each peer and
    answers each call with the [count] messages from [offset] on,
    [_fetch_history] returns the first [limit] messages of the history of
    the peer, in the order of the remote side: all of it when it has fewer
    than [limit] messages, nothing when [limit <= 0]. *)
Theorem fetch_history_serves history peer_id limit pause s :
  serves history ->
  fst (_fetch_history peer_id limit pause s)
  = Ret (take (Z.to_nat limit) (history peer_id)).
Proof.
  intros Hserves. unfold _fetch_history.
  apply (fetch_loop_serves history peer_id limit _ pause 0 s Hserves);
    [case_match eqn:E; [lia|apply Z.ltb_ge in E; lia]|lia|unfold len; lia].
Qed.

Lemma fetch_loop_bounded peer_id limit per_call pause got offset items s res :
  answers_at_most_count ->
  0 <= per_call ->
  len items = got -> got <= Z.max limit 0 ->
  fst (fetch_loop peer_id limit per_call pause got offset items s) = Ret res ->
  len res <= Z.max limit 0.
Proof.
  intros Hmost Hper.
  remember (Z.to_nat (limit - got)) as k eqn:Hk.
  revert got offset items s Hk.
  induction (lt_wf k) as [k _ IH]; intros got offset items s -> Hitems Hgot Hrun.
  destruct (decide (got < limit)) as [Hlt|Hge].
  2:{ rewrite fetch_loop_done in Hrun by done. injection Hrun as <-. lia. }
  assert (0 <= Z.min per_call (limit - got)) as Hc by lia.
  destruct (messages_getHistory peer_id (Z.min per_call (limit - got)) offset
              (world s)) as [[resp|e] w] eqn:Hcall.
  2:{ by erewrite fetch_loop_raise in Hrun. }
  pose proof (Hmost _ _ _ _ _ _ Hc Hcall) as Hle.
  destruct (default [] (VKParser.items resp)) as [|m b] eqn:Hb.
  { erewrite fetch_loop_empty in Hrun by done. injection Hrun as <-. lia. }
  pose proof (len_cons_pos m b) as Hpos.
  erewrite fetch_loop_batch in Hrun by done. cbv zeta in Hrun.
  destruct (len (m :: b) <? Z.min per_call (limit - got)); simpl in Hrun.
  - injection Hrun as <-. rewrite len_app. clear IH. unfold len in *. lia.
  - refine (IH _ _ (got + len (m :: b)) _ _ _ eq_refl _ _ Hrun);
      [lia|rewrite len_app; lia|lia].
Qed.

(** X2. When the remote side never answers more messages than a call
    asks for, [_fetch_history] returns at most [max(limit, 0)] messages. *)
Theorem fetch_history_bounded peer_id limit pause s fetched :
  answers_at_most_count ->
  fst (_fetch_history peer_id limit pause s) = Ret fetched ->
  len fetched <= Z.max limit 0.
Proof.
  intros Hmost Hrun. unfold _fetch_history in Hrun.
  destruct (decide (limit <= 0)) as [Hle|Hgt].
  - rewrite fetch_loop_done in Hrun by lia. injection Hrun as <-. unfold len. simpl. lia.
  - eapply fetch_loop_bounded; [done| | | |exact Hrun]; [|done|lia].
    case_match; lia.
Qed.

End FetchResults.

(** ** Runs of peer normalisation and of the loop over the peers *)

Section PeerRuns.
Import DocumentsParser VKParser VKSpec RunSpec.

Context {W : Type} {vk : VkApiMethod W}.

Lemma resolve_events_calls names : calls (resolve_events names) = [].
Proof. induction names; simpl; done. Qed.

Lemma resolve_events_sleeps names : sleeps (resolve_events names) = [].
Proof. induction names; simpl; done. Qed.

Lemma sleeps_app t1 t2 : sleeps (t1 ++ t2) = sleeps t1 ++ sleeps t2.
Proof.
  induction t1 as [|[] t1 IH]; simpl; [done|done|done|]. by rewrite IH.
Qed.

(** The remote calls of a run of the loop of [_normalize_peer_ids]: one
    resolution for each string up to the one that ends the run. *)
Lemma normalize_loop_trace peer_ids out s :
  ∃ k,
    (k <= length (strings_of peer_ids))%nat ∧
    trace (snd (normalize_loop peer_ids out s))
      = trace s ++ resolve_events (take k (strings_of peer_ids)) ∧
    (∀ res, fst (normalize_loop peer_ids out s) = Ret res ->
            k = length (strings_of peer_ids)) ∧
    (∀ e, fst (normalize_loop peer_ids out s) = Raise e ->
          ∃ pid, strings_of peer_ids !! (k - 1)%nat = Some pid ∧ (0 < k)%nat ∧
                 (e = not_recognised_error pid ∨ e = community_error pid)).
Proof.
  revert out s. induction peer_ids as [|[n|pid] rest IH]; intros out s.
  - exists 0%nat. simpl. rewrite app_nil_r. repeat split; done.
  - simpl. apply IH.
  - simpl. unfold bind.
    destruct (utils_resolveScreenName (screen_name_of pid) (world s))
      as [answer w] eqn:Hcall.
    rewrite (resolve_screen_name_spec pid s answer w Hcall).
    destruct (resolution answer) as [r|].
    + destruct (0 <? r).
      * destruct (IH (out ++ [r])
                    (mkSt w (trace s ++ [EvResolveScreenName (screen_name_of pid)])))
          as (k & Hk & Ht & Hret & Hraise).
        exists (S k). simpl. rewrite Ht. simpl. rewrite <- app_assoc. simpl.
        split; [lia|]. split; [done|]. split.
        -- intros res Hres. f_equal. by eapply Hret.
        -- intros e He. destruct (Hraise e He) as (pid' & Hl & Hpos & Hor).
           exists pid'. split; [|split; [lia|done]].
           rewrite Nat.sub_0_r. destruct k; [lia|].
           simpl in Hl. by rewrite Nat.sub_0_r in Hl.
      * exists 1%nat. simpl. rewrite ?take_0. simpl.
        split; [lia|]. split; [done|]. split; [done|].
        intros e [= <-]. exists pid. eauto.
    + exists 1%nat. simpl. rewrite ?take_0. simpl.
      split; [lia|]. split; [done|]. split; [done|].
      intros e [= <-]. exists pid. eauto.
Qed.

(** X3. The only remote calls of [_normalize_peer_ids] are name
    resolutions: one for each string of the input, in order, up to the
    string that ends the call, and all of them when a list is returned.
    What is sent for a string is [screen_name_of] of it: the string
    without the white space at its ends and, when that starts with
    [https://vk.com/], what follows its last ["/"]. An error is the
    [ValueError] of the last string that was resolved, with one of the two
    messages of the source around that string, as it was given, between
    quotes. Integers cost no call. *)
Theorem normalize_peer_ids_remote_calls peer_ids s :
  ∃ k,
    (k <= length (strings_of peer_ids))%nat ∧
    trace (snd (_normalize_peer_ids peer_ids s))
      = trace s ++ resolve_events (take k (strings_of peer_ids)) ∧
    (∀ out, fst (_normalize_peer_ids peer_ids s) = Ret out ->
            k = length (strings_of peer_ids)) ∧
    (∀ e, fst (_normalize_peer_ids peer_ids s) = Raise e ->
          ∃ pid, strings_of peer_ids !! (k - 1)%nat = Some pid ∧ (0 < k)%nat ∧
                 (e = Exc "ValueError"
                        ("Не удалось распознать peer_id из '" +:+ pid +:+
                         "'. Для бесед передавайте целочисленный peer_id.")
                  ∨ e = Exc "ValueError"
                          ("Экранное имя '" +:+ pid +:+
                           "' указывает на сообщество. Передайте integer peer_id явным образом или используйте диалоги из messages.getConversations.")) ∧
                 names_input e pid).
Proof.
  destruct (normalize_loop_trace peer_ids [] s) as (k & Hk & Ht & Hret & Hraise).
  exists k. split; [done|]. split; [done|]. split; [done|].
  intros e He. destruct (Hraise e He) as (pid & Hl & Hpos & Hor).
  exists pid. split; [done|]. split; [done|]. split; [exact Hor|].
  destruct Hor as [->| ->];
    [apply not_recognised_names_input|apply community_names_input].
Qed.

(** X4. When [_normalize_peer_ids] rejects an input,
    [get_messages_from_vk] raises the same error in the same state: no
    history call has been made and no sleep has been taken, also for the
    peers that precede the rejected one. *)
Theorem rejected_peer_stops_before_history peer_ids limit_per_dialog s e s1 :
  _normalize_peer_ids peer_ids s = (Raise e, s1) ->
  get_messages_from_vk peer_ids limit_per_dialog s = (Raise e, s1) ∧
  calls (trace s1) = calls (trace s) ∧
  sleeps (trace s1) = sleeps (trace s).
Proof.
  intros Hrun. split.
  - unfold get_messages_from_vk, bind. by rewrite Hrun.
  - destruct (normalize_loop_trace peer_ids [] s) as (k & _ & Ht & _).
    unfold _normalize_peer_ids in Hrun. rewrite Hrun in Ht. simpl in Ht.
    rewrite Ht, calls_app, sleeps_app, resolve_events_calls, resolve_events_sleeps.
    by rewrite !app_nil_r.
Qed.

(** The Documents of a run of the loop over the peers. *)
Lemma fetch_peers_grouped peers limit docs s res s' :
  fetch_peers peers limit docs s = (Ret res, s') ->
  ∃ fetched,
    Forall2 (λ pid msgs, ∃ s1 s2 : St W,
               _fetch_history pid limit default_pause s1 = (Ret msgs, s2))
            peers fetched ∧
    res = docs ++ dialog_documents peers fetched.
Proof.
  revert docs s. induction peers as [|pid rest IH]; intros docs s; simpl.
  - intros [= <- <-]. exists []. split; [constructor|]. by rewrite app_nil_r.
  - unfold bind.
    destruct (_fetch_history pid limit default_pause s) as [[raw|e] s1] eqn:Hf;
      [|done].
    intros Hrun. apply IH in Hrun as (fetched & Hall & ->).
    exists (raw :: fetched). split; [constructor; eauto|].
    unfold dialog_documents. simpl. by rewrite <- app_assoc.
Qed.

(** X5. The Documents that [get_messages_from_vk] returns are those of the
    normalised peers, peer by peer in the order of the input: for each peer
    the messages one run of [_fetch_history] returned for it, each turned
    into a Document that carries this peer. *)
Theorem vk_documents_grouped_by_peer peer_ids limit_per_dialog s docs s' :
  get_messages_from_vk peer_ids limit_per_dialog s = (Ret docs, s') ->
  ∃ peers fetched,
    fst (_normalize_peer_ids peer_ids s) = Ret peers ∧
    Forall2 accepted peer_ids peers ∧
    Forall2 (λ pid msgs, ∃ s1 s2 : St W,
               _fetch_history pid limit_per_dialog default_pause s1 = (Ret msgs, s2))
            peers fetched ∧
    docs = dialog_documents peers fetched.
Proof.
  unfold get_messages_from_vk, bind.
  destruct (_normalize_peer_ids peer_ids s) as [[peers|e] s1] eqn:Hnorm; [|done].
  intros Hrun. apply fetch_peers_grouped in Hrun as (fetched & Hall & ->).
  exists peers, fetched. split; [done|]. split; [|done].
  unfold _normalize_peer_ids in Hnorm.
  by apply normalize_loop_ret in Hnorm as (tail & -> & Hacc).
Qed.

End PeerRuns.

(** ** The metadata of a VK Document *)

Section VkDocument.
Import DocumentsParser VKParser.

(** X6. The metadata of the Document of a VK message: [attachments] has
    one label for each attachment, in order, the ["type"] of the attachment
    or ["unknown"] when it has none, and is empty when the message has no
    attachments; [has_forward] is true exactly when the message has a list
    of forwarded messages that is not empty; [peer_id] is the peer given;
    [message_id], [from_id] and [date] are those of the message, [None]
    when absent; and [platform] is ["vk"]. *)
Theorem vk_document_attachments msg peer_id :
  let d := _vk_message_to_document msg peer_id in
  let attachments := default [] (msg_attachments msg) in
  (∃ labels,
     metadata d !! "attachments" = Some (VList labels) ∧
     length labels = length attachments ∧
     ∀ i att, attachments !! i = Some att ->
              labels !! i = Some (default (VStr "unknown") (att !! "type"))) ∧
  (metadata d !! "has_forward" = Some (VBool true) ↔
   ∃ m l, msg_fwd_messages msg = Some (m :: l)) ∧
  metadata d !! "peer_id" = Some (VInt peer_id) ∧
  metadata d !! "message_id" = Some (of_opt_int (msg_id msg)) ∧
  metadata d !! "from_id" = Some (of_opt_int (msg_from_id msg)) ∧
  metadata d !! "date" = Some (of_opt_int (msg_date msg)) ∧
  metadata d !! "platform" = Some (VStr "vk").
Proof.
  cbv zeta. unfold _vk_message_to_document. simpl.
  split; [|split; [|by simplify_map_eq]].
  - eexists. split; [by simplify_map_eq|].
    assert (match msg_attachments msg with
            | Some (a :: l) => a :: l
            | _ => []
            end = default [] (msg_attachments msg)) as ->
      by by destruct (msg_attachments msg) as [[|? ?]|].
    split; [by rewrite length_map|].
    intros i att Hi. by rewrite list_lookup_fmap, Hi.
  - rewrite lookup_insert_eq. split.
    + intros [= Hf]. destruct (msg_fwd_messages msg) as [[|m l]|]; [done|eauto|done].
    + by intros (m & l & ->).
Qed.

End VkDocument.

(** ** Runs of the chat path *)

Section ChatRuns.
Import DocumentsParser TelegramParser RunSpec.

Context {T : Type} (iter_messages : string -> Z -> M T (list Message)).


End ChatRuns.

(** ** Outcomes of parsing a file and of walking a folder *)

Section FileOutcomes.
Import DocumentsParser DocumentSpec.

Context (load : UnstructuredFileLoader -> M Heap (list loc)).
Context (glob : Path -> string -> list Path).

(** The walk raises nothing but the [TypeError] of [extend], and what it
    returns is the lists of its entries, one after the other. *)
Lemma walk_outcomes entries out h r h' :
  walk load entries out h = (r, h') ->
  match r with
  | Ret res =>
      ∃ parsed,
        Forall2 (λ entry docs, ∃ h1 h2,
                   parse_document load entry h1 = (Ret (PyList docs), h2))
                entries parsed ∧
        res = out ++ concat parsed
  | Raise e =>
      ∃ entry cause h1 h2,
        entry ∈ entries ∧
        parse_document load entry h1 = (Ret (PyExcVal cause), h2) ∧
        e = Exc "TypeError" ("'" +:+ exc_class cause +:+ "' object is not iterable")
  end.
Proof.
  revert out h. induction entries as [|entry rest IH]; intros out h; simpl.
  - intros [= <- <-]. exists []. split; [constructor|]. by rewrite app_nil_r.
  - unfold bind.
    destruct (parse_document_returns load entry h) as (docs & h1 & Hp).
    rewrite Hp. destruct docs as [[|doc docs]|cause]; simpl.
    + intros Hrun. apply IH in Hrun. destruct r as [res|e].
      * destruct Hrun as (parsed & Hall & ->). exists ([] :: parsed).
        split; [constructor; eauto|done].
      * destruct Hrun as (entry' & cause & h2 & h3 & Hin & Hc & ->).
        exists entry', cause, h2, h3. split; [apply elem_of_cons; by right|done].
    + intros Hrun. apply IH in Hrun. destruct r as [res|e].
      * destruct Hrun as (parsed & Hall & ->). exists ((doc :: docs) :: parsed).
        split; [constructor; eauto|]. simpl. by rewrite <- app_assoc.
      * destruct Hrun as (entry' & cause & h2 & h3 & Hin & Hc & ->).
        exists entry', cause, h2, h3. split; [apply elem_of_cons; by right|done].
    + intros [= <- <-]. exists entry, cause, h, h1.
      split; [apply elem_of_cons; by left|done].
Qed.

(** X9. The three outcomes of [parse_documents_in_dir]. A list that is
    returned is not empty and is the lists of the entries, one after the
    other in the order of [glob]. An exception that is returned is the
    [Exception] naming [dir_path], and then every entry parsed to an empty
    list (or there was no entry). An exception that is raised is the
    [TypeError] of extending the list with the exception object some entry
    parsed to. *)
Theorem parse_documents_in_dir_outcomes dir_path recursive h r h' :
  parse_documents_in_dir load glob dir_path recursive h = (r, h') ->
  let entries := glob dir_path (if recursive then "**/*" else "*") in
  match r with
  | Ret (PyList docs) =>
      docs ≠ [] ∧
      ∃ parsed,
        Forall2 (λ entry docs, ∃ h1 h2,
                   parse_document load entry h1 = (Ret (PyList docs), h2))
                entries parsed ∧
        docs = concat parsed
  | Ret (PyExcVal e) =>
      e = Exc "Exception" ("Неверный путь: " +:+ str dir_path) ∧
      ∃ parsed,
        Forall2 (λ entry docs, ∃ h1 h2,
                   parse_document load entry h1 = (Ret (PyList docs), h2))
                entries parsed ∧
        concat parsed = []
  | Raise e =>
      ∃ entry cause h1 h2,
        entry ∈ entries ∧
        parse_document load entry h1 = (Ret (PyExcVal cause), h2) ∧
        e = Exc "TypeError" ("'" +:+ exc_class cause +:+ "' object is not iterable")
  end.
Proof.
  unfold parse_documents_in_dir, bind. cbv zeta.
  destruct (walk load _ [] h) as [[out|e] h1] eqn:Hwalk;
    apply walk_outcomes in Hwalk.
  - destruct Hwalk as (parsed & Hall & ->). simpl.
    destruct (concat parsed) as [|doc docs] eqn:Hc; intros [= <- <-]; eauto.
  - intros [= <- <-]. done.
Qed.

(** X10. [parse_document] never raises. For a path without a supported
    suffix it returns an [AttributeError] object (the loader is the
    [Exception] value, which has no [load]), not the [Exception] that names
    the suffix, and leaves the heap as it was; an exception of the first or
    of the second [load()] is returned as a value; otherwise the list of the
    second [load()] is returned. *)
Theorem parse_document_outcomes document_path h :
  (∀ e, get_document_loader document_path "single" false = inr e ->
        parse_document load document_path h =
        (Ret (PyExcVal (Exc "AttributeError"
                          ("'" +:+ exc_class e +:+ "' object has no attribute 'load'"))),
         h)) ∧
  (∀ loader e h1,
     get_document_loader document_path "single" false = inl loader ->
     load loader h = (Raise e, h1) ->
     parse_document load document_path h = (Ret (PyExcVal e), h1)) ∧
  (∀ loader docs h1 e h2,
     get_document_loader document_path "single" false = inl loader ->
     load loader h = (Ret docs, h1) ->
     load loader (annotate_all document_path docs h1) = (Raise e, h2) ->
     parse_document load document_path h = (Ret (PyExcVal e), h2)) ∧
  (∀ loader docs h1 docs' h2,
     get_document_loader document_path "single" false = inl loader ->
     load loader h = (Ret docs, h1) ->
     load loader (annotate_all document_path docs h1) = (Ret docs', h2) ->
     parse_document load document_path h = (Ret (PyList docs'), h2)) ∧
  ∃ r h', parse_document load document_path h = (Ret r, h').
Proof.
  unfold parse_document, try_except, bind, ret. repeat split.
  - by intros e ->.
  - intros loader e h1 -> H1. simpl. by rewrite H1.
  - intros loader docs h1 e h2 -> H1 H2. simpl. by rewrite H1, H2.
  - intros loader docs h1 docs' h2 -> H1 H2. simpl. by rewrite H1, H2.
  - destruct (call_load load _ h) as [[docs|e] h1]; [|eauto].
    destruct (call_load load _ (annotate_all _ _ h1)) as [[docs'|e] h2]; eauto.
Qed.

End FileOutcomes.

(** ** Building the client *)

Section Client.
Import DocumentsParser VKParser RunSpec.

(** The outcome of [_build_vk_client] in each of the two modes. *)
Lemma build_vk_client_user environ mode user_token group_token :
  Str.strip (Str.lower mode) = "user" ->
  _build_vk_client environ mode user_token group_token =
  match token_in_force environ user_token "VK_USER_TOKEN" with
  | Some t => if String.eqb t "" then Raise (token_not_found "user" "VK_USER_TOKEN")
              else Ret (mkVkApi t)
  | None => Raise (token_not_found "user" "VK_USER_TOKEN")
  end.
Proof.
  intros Hm. unfold _build_vk_client. rewrite Hm. simpl.
  by destruct user_token.
Qed.

Lemma build_vk_client_group environ mode user_token group_token :
  Str.strip (Str.lower mode) = "group" ->
  _build_vk_client environ mode user_token group_token =
  match token_in_force environ group_token "VK_GROUP_TOKEN" with
  | Some t => if String.eqb t "" then Raise (token_not_found "group" "VK_GROUP_TOKEN")
              else Ret (mkVkApi t)
  | None => Raise (token_not_found "group" "VK_GROUP_TOKEN")
  end.
Proof.
  intros Hm. unfold _build_vk_client. rewrite Hm. simpl.
  by destruct group_token.
Qed.

Lemma build_vk_client_other environ mode user_token group_token :
  Str.strip (Str.lower mode) ≠ "user" ->
  Str.strip (Str.lower mode) ≠ "group" ->
  _build_vk_client environ mode user_token group_token
  = Raise (Exc "ValueError" "mode должен быть 'user' или 'group'").
Proof.
  intros Hu Hg. unfold _build_vk_client.
  destruct (String.eqb_spec (Str.strip (Str.lower mode)) "user"); [done|].
  by destruct (String.eqb_spec (Str.strip (Str.lower mode)) "group").
Qed.

(** X11. [_build_vk_client] raises the [ValueError] about the mode
    exactly when [mode], lowered and stripped, is neither ["user"] nor
    ["group"], whatever the tokens and the environment. *)
Theorem build_vk_client_mode environ mode user_token group_token :
  Str.is_ascii mode = true ->
  let normal := Str.strip (Str.lower mode) in
  _build_vk_client environ mode user_token group_token
    = Raise (Exc "ValueError" "mode должен быть 'user' или 'group'")
  ↔ normal ≠ "user" ∧ normal ≠ "group".
Proof.
  intros _. cbv zeta. split.
  - intros Hrun.
    destruct (decide (Str.strip (Str.lower mode) = "user")) as [Hu|Hu].
    { rewrite build_vk_client_user in Hrun by done.
      destruct (token_in_force _ _ _) as [t|]; [destruct (String.eqb t "")|]; done. }
    destruct (decide (Str.strip (Str.lower mode) = "group")) as [Hg|Hg]; [|done].
    rewrite build_vk_client_group in Hrun by done.
    destruct (token_in_force _ _ _) as [t|]; [destruct (String.eqb t "")|]; done.
  - intros [Hu Hg]. by apply build_vk_client_other.
Qed.

(** X12. [_build_vk_client] returns a session exactly when the mode is
    ["user"] or ["group"] and the token in force for that mode (the explicit
    one, or else the one of [VK_USER_TOKEN], respectively [VK_GROUP_TOKEN])
    is not empty; the session carries that token. The token of the other
    mode is never used. *)
Theorem build_vk_client_token environ mode user_token group_token session :
  Str.is_ascii mode = true ->
  let normal := Str.strip (Str.lower mode) in
  _build_vk_client environ mode user_token group_token = Ret session
  ↔ token session ≠ "" ∧
    (normal = "user" ∧
       token_in_force environ user_token "VK_USER_TOKEN" = Some (token session)
     ∨ normal = "group" ∧
       token_in_force environ group_token "VK_GROUP_TOKEN" = Some (token session)).
Proof.
  intros _. cbv zeta. destruct session as [tok]. simpl.
  destruct (decide (Str.strip (Str.lower mode) = "user")) as [Hu|Hu].
  { rewrite build_vk_client_user by done. rewrite Hu.
    destruct (token_in_force _ _ _) as [t|].
    - destruct (String.eqb_spec t "") as [->|Ht].
      + split; [done|]. intros [Hne [[_ Heq]|[Heq _]]]; congruence.
      + split; [intros [= ->]; eauto|]. intros [_ [[_ Heq]|[Heq _]]]; congruence.
    - split; [done|]. intros [_ [[_ Heq]|[Heq _]]]; congruence. }
  destruct (decide (Str.strip (Str.lower mode) = "group")) as [Hg|Hg].
  { rewrite build_vk_client_group by done. rewrite Hg.
    destruct (token_in_force _ _ _) as [t|].
    - destruct (String.eqb_spec t "") as [->|Ht].
      + split; [done|]. intros [Hne [[Heq _]|[_ Heq]]]; congruence.
      + split; [intros [= ->]; eauto|]. intros [_ [[Heq _]|[_ Heq]]]; congruence.
    - split; [done|]. intros [_ [[Heq _]|[_ Heq]]]; congruence. }
  rewrite build_vk_client_other by done.
  split; [done|]. intros [_ [[Heq _]|[Heq _]]]; congruence.
Qed.

(** X13. In a valid mode, [_build_vk_client] raises the [RuntimeError]
    that names the mode and its environment variable when the token in
    force is absent or empty. An explicit empty token is not replaced by
    the one of the environment. *)
Theorem build_vk_client_missing_token environ mode user_token group_token :
  Str.is_ascii mode = true ->
  let normal := Str.strip (Str.lower mode) in
  (normal = "user" ->
   token_in_force environ user_token "VK_USER_TOKEN" = None ∨
   token_in_force environ user_token "VK_USER_TOKEN" = Some "" ->
   _build_vk_client environ mode user_token group_token
   = Raise (token_not_found "user" "VK_USER_TOKEN")) ∧
  (normal = "group" ->
   token_in_force environ group_token "VK_GROUP_TOKEN" = None ∨
   token_in_force environ group_token "VK_GROUP_TOKEN" = Some "" ->
   _build_vk_client environ mode user_token group_token
   = Raise (token_not_found "group" "VK_GROUP_TOKEN")) ∧
  (∀ token, normal = "user" -> user_token = Some "" ->
     _build_vk_client (<["VK_USER_TOKEN" := token]> environ) mode
       user_token group_token
     = Raise (token_not_found "user" "VK_USER_TOKEN")).
Proof.
  intros _. cbv zeta. split; [|split].
  - intros Hu Hno. rewrite build_vk_client_user by done.
    by destruct Hno as [-> | ->].
  - intros Hg Hno. rewrite build_vk_client_group by done.
    by destruct Hno as [-> | ->].
  - intros tok Hu ->. by rewrite build_vk_client_user.
Qed.

Context {W : Type} (get_api : VkApi -> VkApiMethod W).

(** X14. [parse_vk_dialogs] builds the client first: an error of
    [_build_vk_client], such as the one for a wrong mode, is raised with
    the state untouched, before any remote call and whatever the peers;
    with a user token given it is [get_messages_from_vk] on the API of the
    session of that token. *)
Theorem parse_vk_dialogs_client_first environ mode peer_ids limit_per_dialog
    user_token group_token s :
  Str.is_ascii mode = true ->
  (∀ e, _build_vk_client environ mode user_token group_token = Raise e ->
        parse_vk_dialogs get_api environ mode peer_ids limit_per_dialog
          user_token group_token s = (Raise e, s)) ∧
  (Str.strip (Str.lower mode) ≠ "user" -> Str.strip (Str.lower mode) ≠ "group" ->
   parse_vk_dialogs get_api environ mode peer_ids limit_per_dialog
     user_token group_token s
   = (Raise (Exc "ValueError" "mode должен быть 'user' или 'group'"), s)) ∧
  (∀ t, Str.strip (Str.lower mode) = "user" -> user_token = Some t -> t ≠ "" ->
        parse_vk_dialogs get_api environ mode peer_ids limit_per_dialog
          user_token group_token s
        = get_messages_from_vk (vk := get_api (mkVkApi t)) peer_ids
            limit_per_dialog s).
Proof.
  intros _. unfold parse_vk_dialogs. split; [|split].
  - by intros e ->.
  - intros Hu Hg. by rewrite build_vk_client_other.
  - intros t Hu -> Ht. rewrite build_vk_client_user by done. simpl.
    by destruct (String.eqb_spec t "").
Qed.

End Client.

(** ** Screen names and profile addresses *)

Section ScreenNames.
Import VKParser VKSpec.

Lemma string_length_ind (P : string -> Prop) :
  (∀ s, (∀ t, (String.length t < String.length s)%nat -> P t) -> P s) ->
  ∀ s, P s.
Proof.
  intros Hstep s. remember (String.length s) as k eqn:Hk. revert s Hk.
  induction (lt_wf k) as [k _ IH]; intros s ->.
  apply Hstep. intros t Ht. by eapply IH.
Qed.

Ltac space_cases :=
  unfold Str.isspace2, Str.isspace3; cbv zeta;
  repeat match goal with
         | |- context [(?u =? ?v)%N] => destruct (N.eqb_spec u v)
         | |- context [(?u <=? ?v)%N] => destruct (N.leb_spec u v)
         end;
  simpl; try reflexivity; lia.

(** No white-space character of two or three bytes starts or ends with an
    ASCII byte. *)
Lemma isspace2_first a b :
  (N_of_ascii a <? 128)%N = true -> Str.isspace2 a b = false.
Proof. intros Ha%N.ltb_lt. space_cases. Qed.

Lemma isspace3_first a b c :
  (N_of_ascii a <? 128)%N = true -> Str.isspace3 a b c = false.
Proof. intros Ha%N.ltb_lt. space_cases. Qed.

Lemma isspace2_last a b :
  (N_of_ascii b <? 128)%N = true -> Str.isspace2 a b = false.
Proof. intros Hb%N.ltb_lt. space_cases. Qed.

Lemma isspace3_last a b c :
  (N_of_ascii c <? 128)%N = true -> Str.isspace3 a b c = false.
Proof. intros Hc%N.ltb_lt. space_cases. Qed.

Lemma lstrip_plain a s :
  (N_of_ascii a <? 128)%N = true -> Str.isspace a = false ->
  Str.lstrip (String a s) = String a s.
Proof.
  intros Ha Hs. simpl. rewrite Hs.
  destruct s as [|b s]; [done|]. rewrite isspace2_first by done.
  destruct s as [|c s]; [done|]. by rewrite isspace3_first.
Qed.

Lemma all_space_plain a s :
  (N_of_ascii a <? 128)%N = true -> Str.isspace a = false ->
  Str.all_space (String a s) = false.
Proof.
  intros Ha Hs. simpl. rewrite Hs.
  destruct s as [|b s]; [done|]. rewrite isspace2_first by done.
  destruct s as [|c s]; [done|]. by rewrite isspace3_first.
Qed.

Lemma rstrip_cons a s :
  Str.rstrip (String a s) =
  if Str.all_space (String a s) then EmptyString else String a (Str.rstrip s).
Proof. reflexivity. Qed.

Lemma rstrip_cons_kept a s :
  (N_of_ascii a <? 128)%N = true -> Str.isspace a = false ->
  Str.rstrip s = s ->
  Str.rstrip (String a s) = String a s.
Proof.
  intros Ha Hspace Hs. by rewrite rstrip_cons, all_space_plain, Hs.
Qed.

Lemma rstrip_length s : (String.length (Str.rstrip s) <= String.length s)%nat.
Proof.
  induction s as [|a s IH]; [done|]. rewrite rstrip_cons.
  destruct (Str.all_space (String a s)); simpl; lia.
Qed.

Lemma lstrip_length s : (String.length (Str.lstrip s) <= String.length s)%nat.
Proof.
  induction s as [s IH] using string_length_ind.
  destruct s as [|a [|b [|c s]]]; [done|..].
  - cbn [Str.lstrip]. destruct (Str.isspace a); simpl; lia.
  - pose proof (IH (String b "") ltac:(simpl; lia)).
    cbn [Str.lstrip] in *.
    destruct (Str.isspace a); [simpl in *; lia|].
    destruct (Str.isspace2 a b); simpl; lia.
  - pose proof (IH (String b (String c s)) ltac:(simpl; lia)).
    pose proof (IH (String c s) ltac:(simpl; lia)).
    pose proof (IH s ltac:(simpl; lia)).
    cbn [Str.lstrip] in *.
    destruct (Str.isspace a); [simpl in *; lia|].
    destruct (Str.isspace2 a b); [simpl in *; lia|].
    destruct (Str.isspace3 a b c); simpl in *; lia.
Qed.

Lemma lstrip_fixed s :
  String.length (Str.lstrip s) = String.length s -> Str.lstrip s = s.
Proof.
  destruct s as [|a [|b [|c s]]]; [done|..].
  - cbn [Str.lstrip]. by destruct (Str.isspace a).
  - pose proof (lstrip_length (String b "")).
    cbn [Str.lstrip] in *. destruct (Str.isspace a); [simpl in *; lia|].
    by destruct (Str.isspace2 a b).
  - pose proof (lstrip_length (String b (String c s))).
    pose proof (lstrip_length (String c s)).
    pose proof (lstrip_length s).
    cbn [Str.lstrip] in *.
    destruct (Str.isspace a); [simpl in *; lia|].
    destruct (Str.isspace2 a b); [simpl in *; lia|].
    destruct (Str.isspace3 a b c); [simpl in *; lia|done].
Qed.

(** A string that [strip] leaves as it is has no white space at either
    end. *)
Lemma strip_fixed s : Str.strip s = s -> Str.lstrip s = s ∧ Str.rstrip s = s.
Proof.
  unfold Str.strip. intros Hs.
  assert (Str.lstrip s = s) as Hl.
  { apply lstrip_fixed.
    pose proof (rstrip_length (Str.lstrip s)). pose proof (lstrip_length s).
    rewrite Hs in *. lia. }
  by rewrite Hl in Hs.
Qed.

Lemma rfind_from_absent c s i last :
  (∀ j last', Str.rfind_from c s j last' = last') ∨
  i <= Str.rfind_from c s i last.
Proof.
  revert i last. induction s as [|a s IH]; intros i last; simpl; [by left|].
  destruct (Ascii.eqb a c).
  - right. destruct (IH (i + 1) i) as [Hnone|Hge]; [rewrite Hnone|]; lia.
  - destruct (IH (i + 1) last) as [Hnone|Hge]; [by left|right; lia].
Qed.

(** A string without the character: [rfind] finds nothing in it, from
    wherever the search starts. *)
Lemma rfind_absent c s :
  Str.rfind c s = -1 -> ∀ j last, Str.rfind_from c s j last = last.
Proof.
  unfold Str.rfind. intros Hs.
  destruct (rfind_from_absent c s 0 (-1)) as [Hnone|Hge]; [done|lia].
Qed.

Lemma substring_all s : String.substring 0 (String.length s) s = s.
Proof. induction s as [|a s IH]; simpl; [done|]. by rewrite IH. Qed.

Lemma rfind_absent_cons c b s :
  (∀ j last, Str.rfind_from c (String b s) j last = last) ->
  Ascii.eqb b c = false ∧ ∀ j last, Str.rfind_from c s j last = last.
Proof.
  intros Hnone. simpl in Hnone. destruct (Ascii.eqb b c) eqn:Hb.
  - specialize (Hnone 0 (-1)). change (0 + 1) with 1 in Hnone.
    destruct (rfind_from_absent c s 1 0) as [Hs|Hge]; [rewrite Hs in Hnone|]; lia.
  - split; [done|]. intros j last. specialize (Hnone (j - 1) last).
    by replace (j - 1 + 1) with j in Hnone by lia.
Qed.

(** A prefix of a string without the character is without it too. *)
Lemma prefix_absent c p s :
  String.prefix p s = true ->
  (∀ j last, Str.rfind_from c s j last = last) ->
  ∀ j last, Str.rfind_from c p j last = last.
Proof.
  revert s. induction p as [|a p IH]; intros s Hp Hs j last; simpl; [done|].
  destruct s as [|b s]; simpl in Hp; [done|].
  destruct (ascii_dec a b) as [->|]; [|done].
  apply rfind_absent_cons in Hs as [-> Hs]. by eapply IH.
Qed.

Lemma profile_address_strip n :
  Str.strip n = n -> Str.strip ("https://vk.com/" +:+ n) = "https://vk.com/" +:+ n.
Proof.
  intros Hn. apply strip_fixed in Hn as [_ Hr].
  unfold Str.strip. cbv [String.append]. rewrite lstrip_plain by reflexivity.
  repeat (apply rstrip_cons_kept; [reflexivity|reflexivity|]). exact Hr.
Qed.

(** X15. For a screen name without ["/"] and without white space at its
    ends, the name and its profile address [https://vk.com/name] are
    resolved alike: both are sent to the remote side as the name, and
    [_resolve_screen_name] runs the same on both. *)
Theorem profile_address_is_screen_name n :
  Str.is_ascii n = true ->
  Str.strip n = n ->
  Str.rfind "/"%char n = -1 ->
  screen_name_of ("https://vk.com/" +:+ n) = n ∧
  screen_name_of n = n ∧
  ∀ (W : Type) (vk : VkApiMethod W) (s : St W),
    _resolve_screen_name ("https://vk.com/" +:+ n) s = _resolve_screen_name n s.
Proof.
  intros _ Hstrip Hslash.
  pose proof (rfind_absent _ _ Hslash) as Hnone.
  assert (screen_name_of ("https://vk.com/" +:+ n) = n) as Hurl.
  { unfold screen_name_of. rewrite profile_address_strip by done.
    unfold Str.startswith, Str.after_last_slash, Str.rfind, Str.slice_from.
    cbv [String.append]. simpl. rewrite Hnone. simpl.
    replace (String.prefix "" n) with true by by destruct n.
    rewrite Nat.sub_0_r. apply substring_all. }
  assert (screen_name_of n = n) as Hbare.
  { unfold screen_name_of. rewrite Hstrip.
    destruct (Str.startswith "https://vk.com/" n) eqn:Hp; [|done].
    pose proof (prefix_absent _ _ _ Hp Hnone 0 (-1)) as Hbad.
    vm_compute in Hbad. discriminate Hbad. }
  split; [done|]. split; [done|].
  intros W vk s.
  destruct (utils_resolveScreenName n (world s)) as [answer w] eqn:Hcall.
  rewrite (resolve_screen_name_spec _ s answer w) by by rewrite Hurl.
  rewrite (resolve_screen_name_spec n s answer w) by by rewrite Hbare.
  by rewrite Hurl, Hbare.
Qed.

Lemma rfind_from_cons c a s i last :
  Str.rfind_from c (String a s) i last =
  Str.rfind_from c s (i + 1) (if Ascii.eqb a c then i else last).
Proof. reflexivity. Qed.

Lemma append_cons a s t : String a s +:+ t = String a (s +:+ t).
Proof. reflexivity. Qed.

Lemma all_space_cons2 a b :
  Str.all_space (String a (String b "")) =
  if Str.isspace a then Str.all_space (String b "")
  else if Str.isspace2 a b then true else false.
Proof. reflexivity. Qed.

Lemma all_space_cons3 a b c s :
  Str.all_space (String a (String b (String c s))) =
  if Str.isspace a then Str.all_space (String b (String c s))
  else if Str.isspace2 a b then Str.all_space (String c s)
  else if Str.isspace3 a b c then Str.all_space s else false.
Proof. reflexivity. Qed.

(** A string that ends with an ASCII character other than white space is
    not white space from any of its positions on. *)
Lemma all_space_ends s a :
  (N_of_ascii a <? 128)%N = true -> Str.isspace a = false ->
  Str.all_space (s +:+ String a "") = false.
Proof.
  intros Ha Hspace. induction s as [s IH] using string_length_ind.
  destruct s as [|b [|c [|d s]]].
  - by apply all_space_plain.
  - change (Str.all_space (String b (String a "")) = false).
    rewrite all_space_cons2, all_space_plain, isspace2_last by done.
    by destruct (Str.isspace b).
  - change (Str.all_space (String b (String c (String a ""))) = false).
    pose proof (IH (String c "") ltac:(simpl; lia)) as IH1.
    change (Str.all_space (String c (String a "")) = false) in IH1.
    rewrite all_space_cons3, IH1, all_space_plain, isspace3_last by done.
    destruct (Str.isspace b); [done|]. by destruct (Str.isspace2 b c).
  - pose proof (IH (String c (String d s)) ltac:(simpl; lia)) as IH2.
    pose proof (IH (String d s) ltac:(simpl; lia)) as IH1.
    pose proof (IH s ltac:(simpl; lia)) as IH0.
    rewrite !append_cons in *.
    rewrite all_space_cons3, IH2, IH1, IH0.
    destruct (Str.isspace b); [done|].
    destruct (Str.isspace2 b c); [done|]. by destruct (Str.isspace3 b c d).
Qed.

Lemma rstrip_ends_kept s a :
  (N_of_ascii a <? 128)%N = true -> Str.isspace a = false ->
  Str.rstrip (s +:+ String a "") = s +:+ String a "".
Proof.
  intros Ha Hspace. induction s as [|b s IH].
  - by apply rstrip_cons_kept.
  - rewrite append_cons, rstrip_cons, IH.
    change (String b (s +:+ String a "")) with (String b s +:+ String a "").
    by rewrite all_space_ends.
Qed.

Lemma rfind_from_ends c s i last :
  Str.rfind_from c (s +:+ String c "") i last = i + Str.len s.
Proof.
  unfold Str.len. revert i last.
  induction s as [|b s IH]; intros i last.
  - simpl. rewrite Ascii.eqb_refl. lia.
  - rewrite append_cons, rfind_from_cons, IH. simpl String.length. lia.
Qed.

Lemma substring_nothing k s : String.substring k 0 s = "".
Proof. revert s. induction k as [|k IH]; intros [|a s]; simpl; done. Qed.

Lemma length_append s t :
  String.length (s +:+ t) = (String.length s + String.length t)%nat.
Proof.
  induction s as [|a s IH]; [done|]. rewrite append_cons. simpl. by rewrite IH.
Qed.

(** X16. A profile address that ends with ["/"] is resolved as the empty
    screen name: [rsplit("/", 1)[-1]] keeps what follows the last slash. *)
Theorem profile_address_trailing_slash n :
  Str.is_ascii n = true ->
  screen_name_of ("https://vk.com/" +:+ n +:+ "/") = "" ∧
  ∀ (W : Type) (vk : VkApiMethod W) (s : St W),
    trace (snd (_resolve_screen_name ("https://vk.com/" +:+ n +:+ "/") s))
    = trace s ++ [EvResolveScreenName ""].
Proof.
  intros _.
  assert (screen_name_of ("https://vk.com/" +:+ n +:+ "/") = "") as Hname.
  { unfold screen_name_of.
    assert (Str.strip ("https://vk.com/" +:+ n +:+ "/")
            = "https://vk.com/" +:+ n +:+ "/") as ->.
    { unfold Str.strip.
      change ("https://vk.com/" +:+ n +:+ "/")
        with (String "h" ("ttps://vk.com/" +:+ n +:+ "/")) at 1.
      rewrite lstrip_plain by reflexivity.
      change (String "h" ("ttps://vk.com/" +:+ n +:+ "/"))
        with (("https://vk.com/" +:+ n) +:+ String "/" "").
      by apply rstrip_ends_kept. }
    replace (Str.startswith "https://vk.com/" ("https://vk.com/" +:+ n +:+ "/"))
      with true.
    2:{ unfold Str.startswith. cbv [String.append]. simpl.
        by destruct ((fix append (s1 s2 : string) {struct s1} : string :=
                        match s1 with
                        | "" => s2
                        | String c s1' => String c (append s1' s2)
                        end) n "/"). }
    unfold Str.after_last_slash, Str.rfind, Str.slice_from.
    change ("https://vk.com/" +:+ n +:+ "/")
      with (("https://vk.com/" +:+ n) +:+ String "/" "").
    rewrite rfind_from_ends. unfold Str.len.
    rewrite !length_append. simpl String.length.
    replace (_ - _)%nat with 0%nat by lia.
    apply substring_nothing. }
  split; [done|].
  intros W vk s.
  destruct (utils_resolveScreenName "" (world s)) as [answer w] eqn:Hcall.
  rewrite (resolve_screen_name_spec _ s answer w) by by rewrite Hname.
  simpl. by rewrite Hname.
Qed.

End ScreenNames.

(** ** Further runs *)

Section MoreRuns.
Import DocumentsParser DocumentSpec TelegramParser VKParser VKSpec RunSpec.

Context {W : Type} {vk : VkApiMethod W}.

Lemma fetch_history_served history peer_id limit pause s :
  serves history ->
  ∃ s', _fetch_history peer_id limit pause s
        = (Ret (take (Z.to_nat limit) (history peer_id)), s').
Proof.
  intros Hserves.
  destruct (_fetch_history peer_id limit pause s) as [r s'] eqn:Hrun.
  exists s'. f_equal.
  change r with (fst (r, s')). rewrite <- Hrun. unfold _fetch_history.
  apply (fetch_loop_serves history peer_id limit _ pause 0 s Hserves);
    [case_match eqn:E; [lia|apply Z.ltb_ge in E; lia]|lia|unfold len; lia].
Qed.

Lemma fetch_peers_served history peers limit docs s :
  serves history ->
  fst (fetch_peers peers limit docs s)
  = Ret (docs ++ dialog_documents peers
                   (map (λ pid, take (Z.to_nat limit) (history pid)) peers)).
Proof.
  intros Hserves. revert docs s.
  induction peers as [|pid rest IH]; intros docs s; simpl.
  - unfold dialog_documents. simpl. by rewrite app_nil_r.
  - unfold bind.
    destruct (fetch_history_served history pid limit default_pause s Hserves)
      as (s' & ->).
    rewrite IH. unfold dialog_documents. simpl. by rewrite <- app_assoc.
Qed.

(** X17. Against a remote side that serves a fixed history for each peer,
    [get_messages_from_vk] on integer peers returns, peer by peer, the
    Documents of the first [limit_per_dialog] messages of each history. *)
Theorem vk_dialogs_of_served_history history peers limit_per_dialog s :
  serves history ->
  fst (get_messages_from_vk (map PInt peers) limit_per_dialog s)
  = Ret (dialog_documents peers
           (map (λ pid, take (Z.to_nat limit_per_dialog) (history pid)) peers)).
Proof.
  intros Hserves. unfold get_messages_from_vk, bind, _normalize_peer_ids.
  rewrite normalize_loop_ints. simpl.
  by rewrite (fetch_peers_served history).
Qed.

Lemma resolutions_app t1 t2 :
  resolutions (t1 ++ t2) = resolutions t1 ++ resolutions t2.
Proof.
  induction t1 as [|[] t1 IH]; simpl; [done| |done|done]. by rewrite IH.
Qed.

Lemma loop_events_resolutions peer_id limit per_call pause got offset new :
  loop_events peer_id limit per_call pause got offset new ->
  resolutions new = [].
Proof. induction 1; simpl; done. Qed.

Lemma fetch_peers_trace peers limit docs s :
  ∃ new,
    trace (snd (fetch_peers peers limit docs s)) = trace s ++ new ∧
    resolutions new = [] ∧ sleeps_last default_pause new.
Proof.
  revert docs s. induction peers as [|pid rest IH]; intros docs s; simpl.
  - exists []. rewrite app_nil_r. repeat split. constructor.
  - unfold bind.
    destruct (fetch_history_events pid limit default_pause s) as (new & Ht & Hev).
    destruct (_fetch_history pid limit default_pause s) as [[raw|e] s1]; simpl in Ht.
    + destruct (IH (docs ++ map (λ m, _vk_message_to_document m pid) raw) s1)
        as (rest' & Ht' & Hres & Hsl).
      exists (new ++ rest'). rewrite Ht', Ht, <- app_assoc.
      split; [done|]. split.
      * rewrite resolutions_app, Hres.
        by rewrite (loop_events_resolutions _ _ _ _ _ _ _ Hev).
      * apply Forall_app. split; [|done]. by eapply loop_events_sleeps.
    + exists new. simpl. split; [done|]. split.
      * by eapply loop_events_resolutions.
      * by eapply loop_events_sleeps.
Qed.

(** X18. In a run of [get_messages_from_vk] every name resolution comes
    before the first history call: the trace is the resolutions of the
    first strings of the input, each for [screen_name_of] of the string,
    and then events that are no resolution, in which every sleep lasts
    [default_pause], 0.34 s. *)
Theorem vk_resolutions_precede_history peer_ids limit_per_dialog s :
  ∃ k history_events,
    trace (snd (get_messages_from_vk peer_ids limit_per_dialog s))
    = trace s ++ resolve_events (take k (strings_of peer_ids)) ++ history_events ∧
    resolutions history_events = [] ∧
    sleeps_last default_pause history_events.
Proof.
  unfold get_messages_from_vk, bind.
  destruct (normalize_loop_trace peer_ids [] s) as (k & _ & Ht & _).
  unfold _normalize_peer_ids.
  destruct (normalize_loop peer_ids [] s) as [[peers|e] s1]; simpl in Ht.
  - destruct (fetch_peers_trace peers limit_per_dialog [] s1)
      as (new & Ht' & Hres & Hsl).
    exists k, new. rewrite Ht', Ht, <- app_assoc. done.
  - exists k, []. simpl. rewrite Ht, app_nil_r. repeat split. constructor.
Qed.

End MoreRuns.

Section MoreDocuments.
Import DocumentsParser DocumentSpec TelegramParser RunSpec.

(** X19. The metadata of the Document of a Telegram message has exactly
    the keys [source], [source_path], [message_id], [date] and [type]:
    the sender ([None] when unknown), the chat, the id, the date as text,
    and the class name of the media or ["text"] when there is none. *)
Theorem telegram_document_metadata chat msg :
  let d := message_document chat msg in
  dom (metadata d) =
    ({[ "source"; "source_path"; "message_id"; "date"; "type" ]} : gset string) ∧
  metadata d !! "source" = Some (of_opt_int (sender_id msg)) ∧
  metadata d !! "source_path" = Some (VStr chat) ∧
  metadata d !! "message_id" = Some (VInt (id msg)) ∧
  metadata d !! "date" = Some (VStr (date msg)) ∧
  metadata d !! "type" = Some (VStr (default "text" (media msg))) ∧
  class_name d = "Document".
Proof.
  cbv zeta. unfold message_document. simpl.
  split; [rewrite !dom_insert_L, dom_empty_L; set_solver|].
  repeat split; by simplify_map_eq.
Qed.

(** X20. What [get_document_loader] returns tells the suffix: a loader
    only for one of the four suffixes, of the class of that suffix and
    built on the POSIX path with [strategy = "auto"]; the [Exception]
    value only for another suffix, compared as it is written. *)
Theorem get_document_loader_inversion document_path mode include_page_breaks :
  match get_document_loader document_path mode include_page_breaks with
  | inl loader =>
      loader_class_of (suffix document_path) = Some (loader_class loader) ∧
      suffix document_path ∈ [".pdf"; ".docx"; ".md"; ".pptx"] ∧
      file_path loader = str document_path ∧
      DocumentsParser.mode loader = mode ∧
      DocumentsParser.include_page_breaks loader = include_page_breaks ∧
      strategy loader = "auto" ∧ languages loader = ["rus"; "eng"]
  | inr e =>
      loader_class_of (suffix document_path) = None ∧
      (suffix document_path ∉ [".pdf"; ".docx"; ".md"; ".pptx"]) ∧
      e = Exc "Exception"
              ("Неподдерживаемый формат файла: " +:+ (suffix document_path))
  end.
Proof.
  unfold get_document_loader, loader_class_of.
  destruct (String.eqb_spec (suffix document_path) ".pdf") as [E|Hpdf].
  { rewrite E. simpl. repeat split. repeat constructor. }
  destruct (String.eqb_spec (suffix document_path) ".docx") as [E|Hdocx].
  { rewrite E. simpl. repeat split. repeat constructor. }
  destruct (String.eqb_spec (suffix document_path) ".md") as [E|Hmd].
  { rewrite E. simpl. repeat split. repeat constructor. }
  destruct (String.eqb_spec (suffix document_path) ".pptx") as [E|Hpptx].
  { rewrite E. simpl. repeat split. repeat constructor. }
  split; [done|]. split; [|done].
  intros Hin. repeat (apply elem_of_cons in Hin as [Hin|Hin]; [done|]).
  by apply elem_of_nil in Hin.
Qed.

Lemma annotate_same d document_path : same_but_annotation d (annotate document_path d).
Proof.
  unfold same_but_annotation, annotate, set_metadata. simpl.
  repeat split. intros key ? ? ?. by simplify_map_eq.
Qed.

Lemma same_but_annotation_trans d1 d2 d3 :
  same_but_annotation d1 d2 -> same_but_annotation d2 d3 ->
  same_but_annotation d1 d3.
Proof.
  intros (Hc & Hp & Hm) (Hc' & Hp' & Hm'). repeat split; [congruence..|].
  intros key ? ? ?. rewrite Hm', Hm; done.
Qed.

Lemma same_but_annotation_refl d : same_but_annotation d d.
Proof. done. Qed.

(** X21. The loop of [parse_document] keeps the heap's size, leaves the
    objects outside the list as they are, and changes nothing of an object
    but its metadata keys [source], [source_path] and [type]. *)
Theorem annotation_touches_three_keys document_path docs (h : Heap) :
  length (annotate_all document_path docs h) = length h ∧
  (∀ l, l ∉ docs -> annotate_all document_path docs h !! l = h !! l) ∧
  (∀ l d, h !! l = Some d ->
          ∃ d', annotate_all document_path docs h !! l = Some d' ∧
                same_but_annotation d d').
Proof.
  revert h. induction docs as [|doc rest IH]; intros h; simpl.
  - split; [done|]. split; [done|].
    intros l d Hl. eauto using same_but_annotation_refl.
  - destruct (IH (alter (annotate document_path) doc h)) as (Hlen & Hout & Hin).
    split; [by rewrite Hlen, length_alter|]. split.
    + intros l Hl. apply not_elem_of_cons in Hl as [Hne Hl].
      rewrite Hout by done. by rewrite list_lookup_alter_ne.
    + intros l d Hl. destruct (decide (doc = l)) as [->|Hne].
      * destruct (Hin l (annotate document_path d)) as (d' & Hd' & Hsame).
        { by rewrite list_lookup_alter_eq, Hl. }
        exists d'. split; [done|].
        eapply same_but_annotation_trans; [apply annotate_same|done].
      * apply Hin. by rewrite list_lookup_alter_ne.
Qed.

End MoreDocuments.

(** ** The further properties on the test doubles *)

Lemma server_serves n :
  RunSpec.serves (vk := Doubles.server n) (λ _, Doubles.dialog n).
Proof. intros peer_id count offset w _ _. by eexists. Qed.

Lemma server_answers_at_most_count n :
  RunSpec.answers_at_most_count (vk := Doubles.server n).
Proof.
  intros peer_id count offset w resp w' Hcount [= <- <-]. simpl.
  unfold VKParser.len. rewrite length_take. lia.
Qed.

Lemma fetch_history_serves_witness :
  fst (VKParser._fetch_history (vk := Doubles.server 300) 7 450
         VKParser.default_pause Doubles.start)
  = Ret (take (Z.to_nat 450) (Doubles.dialog 300)).
Proof.
  apply (fetch_history_serves (vk := Doubles.server 300) (λ _, Doubles.dialog 300)).
  apply server_serves.
Defined.

Lemma fetch_history_bounded_witness :
  VKParser.len (Doubles.dialog 300) <= Z.max 450 0.
Proof.
  apply (fetch_history_bounded (vk := Doubles.server 300) 7 450
           VKParser.default_pause Doubles.start (Doubles.dialog 300)).
  - apply server_answers_at_most_count.
  - vm_compute. reflexivity.
Defined.

Lemma rejected_peer_stops_before_history_witness :
  VKParser.get_messages_from_vk (vk := Doubles.server 300)
    [VKParser.PInt 1; VKParser.PStr "club"] 450 Doubles.start
  = (Raise (VKParser.is_community "club"),
     VKParser.mkSt tt [VKParser.EvResolveScreenName "club"]) ∧
  VKSpec.calls [VKParser.EvResolveScreenName "club"]
  = VKSpec.calls (VKParser.trace Doubles.start) ∧
  RunSpec.sleeps [VKParser.EvResolveScreenName "club"]
  = RunSpec.sleeps (VKParser.trace Doubles.start).
Proof.
  apply (rejected_peer_stops_before_history (vk := Doubles.server 300)
           [VKParser.PInt 1; VKParser.PStr "club"] 450 Doubles.start
           (VKParser.is_community "club")
           (VKParser.mkSt tt [VKParser.EvResolveScreenName "club"])).
  vm_compute. reflexivity.
Defined.

Lemma vk_documents_grouped_by_peer_witness :
  ∃ peers fetched,
    fst (VKParser._normalize_peer_ids (vk := Doubles.server 300)
           [VKParser.PInt 1; VKParser.PStr "durov"] Doubles.start) = Ret peers ∧
    Forall2 (VKSpec.accepted (vk := Doubles.server 300))
            [VKParser.PInt 1; VKParser.PStr "durov"] peers ∧
    Forall2 (λ pid msgs, ∃ s1 s2 : VKParser.St unit,
               VKParser._fetch_history (vk := Doubles.server 300) pid 2
                 VKParser.default_pause s1 = (Ret msgs, s2))
            peers fetched ∧
    RunSpec.dialog_documents [1; 1] [Doubles.dialog 2; Doubles.dialog 2]
    = RunSpec.dialog_documents peers fetched.
Proof.
  apply (vk_documents_grouped_by_peer (vk := Doubles.server 300)
           [VKParser.PInt 1; VKParser.PStr "durov"] 2 Doubles.start
           (RunSpec.dialog_documents [1; 1] [Doubles.dialog 2; Doubles.dialog 2])
           (snd (VKParser.get_messages_from_vk (vk := Doubles.server 300)
                   [VKParser.PInt 1; VKParser.PStr "durov"] 2 Doubles.start))).
  vm_compute. reflexivity.
Defined.

Lemma parse_documents_in_dir_outcomes_witness :
  ∃ entry cause h1 h2,
    entry ∈ Doubles.glob_mixed Doubles.docs_dir "**/*" ∧
    DocumentsParser.parse_document (Doubles.langchain_load Doubles.docs_files)
      entry h1 = (Ret (DocumentsParser.PyExcVal cause), h2) ∧
    Exc "TypeError" "'AttributeError' object is not iterable"
    = Exc "TypeError" ("'" +:+ exc_class cause +:+ "' object is not iterable").
Proof.
  apply (parse_documents_in_dir_outcomes
           (Doubles.langchain_load Doubles.docs_files) Doubles.glob_mixed
           Doubles.docs_dir true []
           (Raise (Exc "TypeError" "'AttributeError' object is not iterable"))
           (snd (DocumentsParser.parse_documents_in_dir
                   (Doubles.langchain_load Doubles.docs_files) Doubles.glob_mixed
                   Doubles.docs_dir true []))).
  vm_compute. reflexivity.
Defined.

Lemma build_vk_client_mode_witness :
  VKParser._build_vk_client Doubles.environ_user " Admin " None None
  = Raise (Exc "ValueError" "mode должен быть 'user' или 'group'").
Proof.
  apply (proj2 (build_vk_client_mode Doubles.environ_user " Admin " None None
                  eq_refl)).
  split; intros H; vm_compute in H; discriminate H.
Defined.

Lemma build_vk_client_token_witness :
  VKParser._build_vk_client Doubles.environ_user " USER " None (Some "vk1.a.group")
  = Ret (VKParser.mkVkApi "vk1.a.user").
Proof.
  apply (proj2 (build_vk_client_token Doubles.environ_user " USER " None
                  (Some "vk1.a.group") (VKParser.mkVkApi "vk1.a.user") eq_refl)).
  split.
  - intros H. vm_compute in H. discriminate H.
  - left. split; vm_compute; reflexivity.
Defined.

Lemma build_vk_client_missing_token_witness :
  VKParser._build_vk_client Doubles.environ_user "group" (Some "vk1.a.user") None
  = Raise (RunSpec.token_not_found "group" "VK_GROUP_TOKEN") ∧
  VKParser._build_vk_client (<["VK_USER_TOKEN" := "vk1.a.other"]> Doubles.environ_user)
    "user" (Some "") None
  = Raise (RunSpec.token_not_found "user" "VK_USER_TOKEN").
Proof.
  split.
  - apply (proj1 (proj2 (build_vk_client_missing_token Doubles.environ_user "group"
                           (Some "vk1.a.user") None eq_refl))).
    + reflexivity.
    + left. vm_compute. reflexivity.
  - apply (proj2 (proj2 (build_vk_client_missing_token Doubles.environ_user "user"
                           (Some "") None eq_refl))).
    + reflexivity.
    + reflexivity.
Defined.

Lemma parse_vk_dialogs_client_first_witness :
  VKParser.parse_vk_dialogs Doubles.get_api_server Doubles.environ_user "admin"
    [VKParser.PStr "nobody"] 450 None None Doubles.start
  = (Raise (Exc "ValueError" "mode должен быть 'user' или 'group'"), Doubles.start).
Proof.
  apply (proj1 (proj2 (parse_vk_dialogs_client_first Doubles.get_api_server
                         Doubles.environ_user "admin" [VKParser.PStr "nobody"] 450
                         None None Doubles.start eq_refl))).
  - intros H. vm_compute in H. discriminate H.
  - intros H. vm_compute in H. discriminate H.
Defined.

Lemma profile_address_is_screen_name_witness :
  VKSpec.screen_name_of ("https://vk.com/" +:+ "durov") = "durov".
Proof.
  apply (proj1 (profile_address_is_screen_name "durov" eq_refl eq_refl eq_refl)).
Defined.

Lemma profile_address_trailing_slash_witness :
  VKSpec.screen_name_of ("https://vk.com/" +:+ "durov" +:+ "/") = "".
Proof.
  apply (proj1 (profile_address_trailing_slash "durov" eq_refl)).
Defined.

Lemma vk_dialogs_of_served_history_witness :
  fst (VKParser.get_messages_from_vk (vk := Doubles.server 300)
         (map VKParser.PInt [1; 2000000123]) 2 Doubles.start)
  = Ret (RunSpec.dialog_documents [1; 2000000123]
           (map (λ pid, take (Z.to_nat 2) (Doubles.dialog 300)) [1; 2000000123])).
Proof.
  apply (vk_dialogs_of_served_history (vk := Doubles.server 300)
           (λ _, Doubles.dialog 300)).
  apply server_serves.
Defined.
